(** * crosscors: the CORS decision function of [src/index.ts]

    A shallow embedding of [matchOrigin] and of the handler returned by
    [crosscors], with the platform objects they touch:

    - strings are [string] (sequences of 8-bit code units);
    - [req.headers] and the header set of the response are finite maps
      from header names to values; [setHeader] and [end] of the response
      throw where those of Node do, and leave the response as it was then;
    - a [RegExp] is an object with an identity, a compiled matcher, the
      [g] and [y] flags and a mutable [lastIndex]; the [lastIndex] of every
      pattern object lives in a store that is threaded through the calls,
      so that two references to one object share it;
    - a promise is represented by the way it settles, a call by the way it
      completes. *)

From Stdlib Require Import Ascii String ZArith.
From stdpp Require Import base option strings gmap list pretty.

Open Scope string_scope.

(** ** Strings *)

Module JsString.

Definition upper_ascii (c : ascii) : ascii :=
  let n := nat_of_ascii c in
  if (97 <=? n)%nat && (n <=? 122)%nat then ascii_of_nat (n - 32) else c.

Definition lower_ascii (c : ascii) : ascii :=
  let n := nat_of_ascii c in
  if (65 <=? n)%nat && (n <=? 90)%nat then ascii_of_nat (n + 32) else c.

Fixpoint map_ascii (f : ascii -> ascii) (s : string) : string :=
  match s with
  | EmptyString => EmptyString
  | String c s' => String (f c) (map_ascii f s')
  end.

(** [String.prototype.toUpperCase] and [toLowerCase] on the ASCII letters;
    other code units are kept. *)
Definition toUpperCase : string -> string := map_ascii upper_ascii.
Definition toLowerCase : string -> string := map_ascii lower_ascii.

(** [Array.prototype.join]. *)
Definition join (sep : string) (l : list string) : string :=
  String.concat sep l.

(** Every code unit of a text satisfies a test. *)
Fixpoint all_ascii (p : ascii -> bool) (s : string) : bool :=
  match s with
  | EmptyString => true
  | String c s' => p c && all_ascii p s'
  end.

(** A text of ASCII code units only. On such a text [toUpperCase] above is
    the whole of [String.prototype.toUpperCase]; beyond ASCII the method of
    JavaScript also maps letters this one keeps. *)
Definition isAscii (s : string) : bool :=
  all_ascii (fun c => (nat_of_ascii c <? 128)%nat) s.

(** Truthiness of a [string | undefined]: defined and not empty. *)
Definition truthy (v : option string) : bool :=
  match v with
  | Some s => negb (s =? "")
  | None => false
  end.

End JsString.

Import JsString.

(** ** Pattern objects *)

Record RegExp := mkRegExp {
  re_id : nat;                                (* identity of the object *)
  re_matcher : string -> nat -> option nat;   (* match anchored at an index: the end index *)
  re_global : bool;                           (* flag g *)
  re_sticky : bool;                           (* flag y *)
}.

(** The [lastIndex] property of the pattern objects, by identity; an object
    that was never written has [lastIndex] 0. *)
Abbreviation Store := (gmap nat nat).

Module RegExpObject.

Definition stateful (r : RegExp) : bool := re_global r || re_sticky r.

Definition lastIndex (r : RegExp) (σ : Store) : nat := default 0 (σ !! re_id r).

Definition setLastIndex (r : RegExp) (i : nat) (σ : Store) : Store :=
  if stateful r then <[re_id r := i]> σ else σ.

(** The search loop of RegExpBuiltinExec: try the matcher at [i]; when it
    fails, a sticky pattern gives up and any other one moves one index to
    the right, until the index passes the end of the input. [n] counts the
    indices that are left, the end of the input included. *)
Fixpoint scan (r : RegExp) (s : string) (n i : nat) : option nat :=
  match n with
  | O => None
  | S n' =>
      match re_matcher r s i with
      | Some e => Some e
      | None => if re_sticky r then None else scan r s n' (S i)
      end
  end.

(** RegExpBuiltinExec, up to what [test] observes: the index the search
    starts from is [lastIndex] for a global or sticky pattern and 0
    otherwise; such a pattern has its [lastIndex] set to the end of the
    match on success and to 0 on failure. *)
Definition exec (r : RegExp) (s : string) (σ : Store) : option nat * Store :=
  let start := if stateful r then lastIndex r σ else 0 in
  if (String.length s <? start)%nat then (None, setLastIndex r 0 σ)
  else
    match scan r s (S (String.length s - start)) start with
    | None => (None, setLastIndex r 0 σ)
    | Some e => (Some e, setLastIndex r e σ)
    end.

(** [RegExp.prototype.test]. *)
Definition test (r : RegExp) (s : string) (σ : Store) : bool * Store :=
  let '(m, σ') := exec r s σ in (bool_decide (is_Some m), σ').

End RegExpObject.

(** ** Requests, promises and completions *)

Record IncomingMessage := mkRequest {
  method : option string;
  headers : gmap string string;   (* keyed by lower-case header name *)
}.

Definition Error := string.

(** The state a promise settles in, if it settles at all. *)
Inductive Promise (A : Type) : Type :=
| Fulfilled (a : A)
| Rejected (e : Error)
| Pending.
Arguments Fulfilled {A} a.
Arguments Rejected {A} e.
Arguments Pending {A}.

(** The way a call completes. *)
Inductive Completion (A : Type) : Type :=
| Normal (a : A)
| Throw (e : Error).
Arguments Normal {A} a.
Arguments Throw {A} e.

(** What a call of an origin function does: [boolean | Promise<boolean>],
    or an exception. *)
Inductive PredicateResult : Type :=
| ReturnsBoolean (b : bool)
| ReturnsPromise (p : Promise bool)
| Throws (e : Error).

(** ** CrossCorsOrigin and CrossCorsOptions *)

Inductive OriginElement : Type :=
| EString (s : string)
| ERegExp (r : RegExp).

Inductive CrossCorsOrigin : Type :=
| OString (s : string)
| ORegExp (r : RegExp)
| OArray (l : list OriginElement)
| OFunction (f : string -> IncomingMessage -> PredicateResult).

Record CrossCorsOptions := mkOptions {
  origin : option CrossCorsOrigin;
  methods : option (list string);
  allowedHeaders : option (list string);
  exposedHeaders : option (list string);
  credentials : option bool;
  maxAge : option Z;
  preflightContinue : option bool;
  optionsSuccessStatus : option Z;
  log : option bool;
}.

(** [crosscors()] and [crosscors({})]. *)
Definition noOptions : CrossCorsOptions :=
  mkOptions None None None None None None None None None.

(** ** matchOrigin *)

(** [!ruleOrigin]: [undefined] and the empty string are falsy; pattern
    objects, arrays and functions are truthy. *)
Definition ruleTruthy (ruleOrigin : option CrossCorsOrigin) : bool :=
  match ruleOrigin with
  | None => false
  | Some (OString s) => negb (s =? "")
  | Some _ => true
  end.

(** The callback of [ruleOrigin.some] (line 44). *)
Definition elementTest (reqOrigin : string) (o : OriginElement) (σ : Store)
  : bool * Store :=
  match o with
  | EString s => (s =? reqOrigin, σ)
  | ERegExp r => RegExpObject.test r reqOrigin σ
  end.

(** [Array.prototype.some] with that callback: left to right, stopping at
    the first element that is accepted. *)
Fixpoint some (reqOrigin : string) (l : list OriginElement) (σ : Store)
  : bool * Store :=
  match l with
  | [] => (false, σ)
  | o :: l' =>
      let '(b, σ') := elementTest reqOrigin o σ in
      if b then (true, σ') else some reqOrigin l' σ'
  end.

Definition matchOrigin (ruleOrigin : option CrossCorsOrigin)
    (reqOrigin : option string) (req : IncomingMessage) (σ : Store)
  : Completion (Promise bool) * Store :=
  if negb (ruleTruthy ruleOrigin) then (Normal (Fulfilled true), σ)
  else if negb (truthy reqOrigin) then (Normal (Fulfilled false), σ)
  else
    match ruleOrigin, reqOrigin with
    | Some (OString s), Some o =>
        (Normal (Fulfilled ((s =? "*") || (s =? o))), σ)
    | Some (ORegExp r), Some o =>
        let '(b, σ') := RegExpObject.test r o σ in (Normal (Fulfilled b), σ')
    | Some (OArray l), Some o =>
        let '(b, σ') := some o l σ in (Normal (Fulfilled b), σ')
    | Some (OFunction f), Some o =>
        match f o req with
        | ReturnsBoolean b => (Normal (Fulfilled b), σ)
        | ReturnsPromise p => (Normal p, σ)
        | Throws e => (Throw e, σ)
        end
    | _, _ => (Normal (Fulfilled false), σ)
    end.

(** ** The response and the console *)

Record ServerResponse := mkResponse {
  statusCode : Z;
  outHeaders : gmap string string;   (* keyed by lower-case header name *)
  body : string;                     (* what has been written so far *)
  writableEnded : bool;              (* [end] has been called *)
  headersSent : bool;                (* the head has been generated *)
}.

(** A call on the response: the way it completes and the response it
    leaves. A call that throws leaves what the calls before it did. *)
Definition Action (A : Type) : Type :=
  ServerResponse -> Completion A * ServerResponse.

Global Instance Action_ret : MRet Action := fun A a res => (Normal a, res).

Global Instance Action_bind : MBind Action := fun A B k m res =>
  match m res with
  | (Normal a, res') => k a res'
  | (Throw e, res') => (Throw e, res')
  end.

Module Response.

(** The characters [setHeader] accepts in a value: the tab, 0x20 to 0x7e
    and 0x80 to 0xff. *)
Definition validHeaderChar (c : ascii) : bool :=
  let n := nat_of_ascii c in
  (n =? 9)%nat || ((32 <=? n)%nat && (n <=? 126)%nat) || (128 <=? n)%nat.

Definition validHeaderValue (v : string) : bool := all_ascii validHeaderChar v.

(** What a [setHeader] that succeeds does: the entry is written, replacing
    an earlier one of the same name whatever its case. *)
Definition withHeader (name value : string) (res : ServerResponse) : ServerResponse :=
  mkResponse (statusCode res) (<[toLowerCase name := value]> (outHeaders res))
             (body res) (writableEnded res) (headersSent res).

(** [res.setHeader(name, value)] for a name that is a valid token, as the
    seven names of the handler are: it throws once the head has been
    generated, and on a value with a character outside the accepted ones. *)
Definition setHeader (name value : string) : Action () := fun res =>
  if headersSent res then (Throw "ERR_HTTP_HEADERS_SENT", res)
  else if negb (validHeaderValue value) then (Throw "ERR_INVALID_CHAR", res)
  else (Normal (), withHeader name value res).

Definition getHeader (name : string) (res : ServerResponse) : option string :=
  outHeaders res !! toLowerCase name.

(** [res.statusCode = code]: a plain assignment. *)
Definition setStatusCode (code : Z) : Action () := fun res =>
  (Normal (),
   mkResponse code (outHeaders res) (body res) (writableEnded res) (headersSent res)).

(** [code | 0]: the status code as a 32-bit integer. *)
Definition toInt32 (code : Z) : Z :=
  ((code + 2147483648) mod 4294967296 - 2147483648)%Z.

(** [res.end()] with no data. On a response that is ended already it does
    nothing. Otherwise, when the head has not been generated, it generates
    it with the status code of the response, and throws when that is
    outside 100..999; then the response is ended. Nothing is added to the
    body. *)
Definition end_ : Action () := fun res =>
  if writableEnded res then (Normal (), res)
  else if headersSent res then
    (Normal (),
     mkResponse (statusCode res) (outHeaders res) (body res) true true)
  else
    let code := toInt32 (statusCode res) in
    if (code <? 100)%Z || (999 <? code)%Z
    then (Throw "ERR_HTTP_INVALID_STATUS_CODE", res)
    else (Normal (), mkResponse code (outHeaders res) (body res) true true).

(** A response as the server hands it over. *)
Definition fresh : ServerResponse := mkResponse 200 ∅ "" false false.

End Response.

Import Response.

Inductive Level := Warn | Info.

(** One run of the handler: the state its promise settles in, the response
    and the pattern store as it leaves them, and what it wrote to the
    console. *)
Record Run := mkRun {
  outcome : Promise bool;
  response : ServerResponse;
  store : Store;
  console : list (Level * string);
}.

(** ** crosscors *)

(** [origin === '*']. *)
Definition isStar (origin : CrossCorsOrigin) : bool :=
  match origin with
  | OString s => s =? "*"
  | _ => false
  end.

(** Line 75: the method in upper case, the empty string when the request
    has none. *)
Definition reqMethod (req : IncomingMessage) : string :=
  if truthy (method req) then toUpperCase (default "" (method req)) else "".

(** [String(maxAge)] for an integral number: its decimal text, which is what
    JavaScript gives for an integer below 2^53 in magnitude. *)
Definition String_ (n : Z) : string := pretty n.

(** A statement that is skipped. *)
Definition skip : Action () := mret ().

(** Lines 82-101 of the handler: the headers it sets once the origin is
    allowed. *)
Definition setCorsHeaders
    (origin : CrossCorsOrigin) (methods : list string)
    (allowedHeaders exposedHeaders : option (list string))
    (credentials : bool) (maxAge : option Z)
    (req : IncomingMessage) : Action () :=
  let reqOrigin := headers req !! "origin" in
  (if truthy reqOrigin then
     setHeader "Access-Control-Allow-Origin"
       (if isStar origin then "*" else default "" reqOrigin) ;;
     setHeader "Vary" "Origin"
   else skip) ;;
  setHeader "Access-Control-Allow-Methods" (join "," methods) ;;
  match allowedHeaders with
  | Some hs => setHeader "Access-Control-Allow-Headers" (join "," hs)
  | None =>
      if truthy (headers req !! "access-control-request-headers") then
        setHeader "Access-Control-Allow-Headers"
          (default "" (headers req !! "access-control-request-headers"))
      else skip
  end ;;
  match exposedHeaders with
  | Some hs => setHeader "Access-Control-Expose-Headers" (join "," hs)
  | None => skip
  end ;;
  (if credentials then setHeader "Access-Control-Allow-Credentials" "true"
   else skip) ;;
  match maxAge with
  | Some n => setHeader "Access-Control-Max-Age" (String_ n)
  | None => skip
  end.

Definition handleCors
    (origin : CrossCorsOrigin) (methods : list string)
    (allowedHeaders exposedHeaders : option (list string))
    (credentials : bool) (maxAge : option Z)
    (preflightContinue : bool) (optionsSuccessStatus : Z) (log : bool)
    (req : IncomingMessage) (res : ServerResponse) (σ : Store) : Run :=
  let reqOrigin := headers req !! "origin" in
  let reqMethod := reqMethod req in
  match matchOrigin (Some origin) reqOrigin req σ with
  | (Throw e, σ') => mkRun (Rejected e) res σ' []
  | (Normal (Rejected e), σ') => mkRun (Rejected e) res σ' []
  | (Normal Pending, σ') => mkRun Pending res σ' []
  | (Normal (Fulfilled false), σ') =>
      mkRun (Fulfilled false) res σ'
        (if log && truthy reqOrigin
         then [(Warn, "[crosscors] Blocked: " +:+ default "" reqOrigin)] else [])
  | (Normal (Fulfilled true), σ') =>
      (* Set CORS headers *)
      match setCorsHeaders origin methods allowedHeaders exposedHeaders
              credentials maxAge req res with
      | (Throw e, res) => mkRun (Rejected e) res σ' []
      | (Normal _, res) =>
          let out :=
            if log && truthy reqOrigin
            then [(Info, "[crosscors] Allowed: " +:+ default "" reqOrigin)]
            else [] in
          (* Handle preflight (OPTIONS) requests *)
          if reqMethod =? "OPTIONS" then
            if preflightContinue then mkRun (Fulfilled false) res σ' out
            else
              match (setStatusCode optionsSuccessStatus ;; end_) res with
              | (Throw e, res) => mkRun (Rejected e) res σ' out
              | (Normal _, res) => mkRun (Fulfilled true) res σ' out
              end
          else mkRun (Fulfilled false) res σ' out
      end
  end.

(** The defaults of the destructuring at the head of [crosscors], and the
    handler it returns. *)
Definition crosscors (options : CrossCorsOptions)
  : IncomingMessage -> ServerResponse -> Store -> Run :=
  handleCors
    (default (OString "*") (origin options))
    (default ["GET"; "HEAD"; "PUT"; "PATCH"; "POST"; "DELETE"] (methods options))
    (allowedHeaders options)
    (exposedHeaders options)
    (default false (credentials options))
    (maxAge options)
    (default false (preflightContinue options))
    (default 204%Z (optionsSuccessStatus options))
    (default false (log options)).

(** ** Patterns used in the examples *)

Module Patterns.

(** The matcher of a pattern that is a literal text: [/lit/]. *)
Definition literal (lit s : string) (i : nat) : option nat :=
  if String.substring i (String.length lit) s =? lit
  then Some (i + String.length lit) else None.

(** The matcher of a literal text anchored at the end: [/lit$/]. *)
Definition suffix (lit s : string) (i : nat) : option nat :=
  if (i + String.length lit =? String.length s)%nat
     && (String.substring i (String.length lit) s =? lit)
  then Some (String.length s) else None.

End Patterns.

(** ** Notions the statements use *)

(** The origin policy a configuration resolves to. *)
Definition policy (options : CrossCorsOptions) : CrossCorsOrigin :=
  default (OString "*") (origin options).

(** The matching step of a request settles on [true] (allow) or on [false]
    (denial). *)
Definition allowed (options : CrossCorsOptions) (req : IncomingMessage) (σ : Store) : Prop :=
  exists σ', matchOrigin (Some (policy options)) (headers req !! "origin") req σ
             = (Normal (Fulfilled true), σ').

Definition denied (options : CrossCorsOptions) (req : IncomingMessage) (σ : Store) : Prop :=
  exists σ', matchOrigin (Some (policy options)) (headers req !! "origin") req σ
             = (Normal (Fulfilled false), σ').

(** An element of a list accepts a request origin: a string by equality, a
    pattern by its [test] in the store at hand. *)
Definition accepts (o : string) (σ : Store) (x : OriginElement) : Prop :=
  match x with
  | EString s => s = o
  | ERegExp r => (RegExpObject.test r o σ).1 = true
  end.

(** The pattern objects of a list that carry [g] or [y], by identity. *)
Fixpoint statefulIds (l : list OriginElement) : list nat :=
  match l with
  | [] => []
  | ERegExp r :: l' =>
      if RegExpObject.stateful r then re_id r :: statefulIds l' else statefulIds l'
  | EString _ :: l' => statefulIds l'
  end.

(** A policy without hidden state: no origin function, and no pattern with
    the [g] or the [y] flag. *)
Definition stateless (p : CrossCorsOrigin) : Prop :=
  match p with
  | OString _ => True
  | ORegExp r => RegExpObject.stateful r = false
  | OArray l => statefulIds l = []
  | OFunction _ => False
  end.

Definition notDynamic (p : CrossCorsOrigin) : Prop :=
  match p with
  | OFunction _ => False
  | _ => True
  end.

(** The request has no origin the handler can use: no Origin header, or an
    empty one. *)
Definition noOrigin (req : IncomingMessage) : Prop :=
  headers req !! "origin" = None \/ headers req !! "origin" = Some "".

(** The names of the headers the handler may set. *)
Definition corsHeaderNames : list string :=
  [ "Access-Control-Allow-Origin"; "Vary"; "Access-Control-Allow-Methods";
    "Access-Control-Allow-Headers"; "Access-Control-Expose-Headers";
    "Access-Control-Allow-Credentials"; "Access-Control-Max-Age" ].

(** A header name that is none of them, whatever its case. *)
Definition foreign (name : string) : Prop :=
  Forall (fun n => toLowerCase n <> toLowerCase name) corsHeaderNames.


(** The [setHeader] calls of lines 83-101, in the order the handler makes
    them. *)
Definition headerWrites (options : CrossCorsOptions) (req : IncomingMessage)
  : list (string * string) :=
  let reqOrigin := headers req !! "origin" in
  let requested := headers req !! "access-control-request-headers" in
  (if truthy reqOrigin
   then [ ("Access-Control-Allow-Origin",
           if isStar (policy options) then "*" else default "" reqOrigin);
          ("Vary", "Origin") ]
   else [])
  ++ [ ("Access-Control-Allow-Methods",
        join "," (default ["GET"; "HEAD"; "PUT"; "PATCH"; "POST"; "DELETE"]
                    (methods options))) ]
  ++ match allowedHeaders options with
     | Some hs => [ ("Access-Control-Allow-Headers", join "," hs) ]
     | None =>
         if truthy requested
         then [ ("Access-Control-Allow-Headers", default "" requested) ] else []
     end
  ++ match exposedHeaders options with
     | Some hs => [ ("Access-Control-Expose-Headers", join "," hs) ]
     | None => []
     end
  ++ (if default false (credentials options)
      then [ ("Access-Control-Allow-Credentials", "true") ] else [])
  ++ match maxAge options with
     | Some n => [ ("Access-Control-Max-Age", String_ n) ]
     | None => []
     end.

(** What a sequence of [setHeader] calls that all succeed does. *)
Definition setHeaders (ws : list (string * string)) (res : ServerResponse)
  : ServerResponse :=
  foldl (fun r w => withHeader w.1 w.2 r) res ws.

(** The response with the headers of a configuration set, as a run in which
    every [setHeader] call succeeds leaves it. *)
Definition corsHeaders (options : CrossCorsOptions) (req : IncomingMessage)
    (res : ServerResponse) : ServerResponse :=
  setHeaders (headerWrites options req) res.

(** A sequence of [setHeader] calls, up to the first that throws. *)
Fixpoint runWrites (ws : list (string * string)) : Action () :=
  match ws with
  | [] => skip
  | w :: ws' => setHeader w.1 w.2 ;; runWrites ws'
  end.

(** The calls of such a sequence that succeed: none once the head has been
    generated, and otherwise those before the first value with a character
    that is not accepted. *)
Fixpoint validPrefix (ws : list (string * string)) : list (string * string) :=
  match ws with
  | [] => []
  | w :: ws' => if validHeaderValue w.2 then w :: validPrefix ws' else []
  end.

Definition written (ws : list (string * string)) (res : ServerResponse)
  : list (string * string) :=
  if headersSent res then [] else validPrefix ws.

(** ** What the platform asks of a call *)

(** The texts of a configuration that go into headers have accepted
    characters only, and [maxAge] is an integer the number type holds
    exactly (below 2^53 in magnitude). *)
Definition validOptions (options : CrossCorsOptions) : bool :=
  forallb validHeaderValue (default [] (methods options))
  && forallb validHeaderValue (default [] (allowedHeaders options))
  && forallb validHeaderValue (default [] (exposedHeaders options))
  && match maxAge options with
     | Some n => (- 9007199254740992 <? n)%Z && (n <? 9007199254740992)%Z
     | None => true
     end.

(** [optionsSuccessStatus] is a status code [end] accepts: 100 to 999. *)
Definition validStatus (options : CrossCorsOptions) : bool :=
  (100 <=? default 204 (optionsSuccessStatus options))%Z
  && (default 204 (optionsSuccessStatus options) <=? 999)%Z.

(** The two request headers the handler may copy into the response have
    accepted characters only, as the parser of Node delivers them. *)
Definition validRequest (req : IncomingMessage) : bool :=
  from_option validHeaderValue true (headers req !! "origin")
  && from_option validHeaderValue true
       (headers req !! "access-control-request-headers").

(** The method of the request, when it has one, is ASCII, as the method
    names the parser of Node delivers are. *)
Definition asciiMethod (req : IncomingMessage) : bool :=
  from_option isAscii true (method req).

(** A call the platform accepts: the head of the response has not been
    generated, and configuration and request are valid as above. *)
Definition ready (options : CrossCorsOptions) (req : IncomingMessage)
    (res : ServerResponse) : Prop :=
  headersSent res = false /\ validOptions options = true /\
  validRequest req = true.

(** The value the last call for a header (by lower-case name) in a sequence
    of [setHeader] calls gives it, if there is such a call. *)
Fixpoint lastWrite (k : string) (ws : list (string * string)) : option string :=
  match ws with
  | [] => None
  | w :: ws' =>
      match lastWrite k ws' with
      | Some v => Some v
      | None => if decide (toLowerCase w.1 = k) then Some w.2 else None
      end
  end.

(** ** Example requests and configurations *)

Module Examples.

Definition request (m : option string) (o : string) : IncomingMessage :=
  mkRequest m {[ "origin" := o ]}.

Definition anonymous (m : option string) : IncomingMessage := mkRequest m ∅.

Definition withOrigin (p : CrossCorsOrigin) : CrossCorsOptions :=
  mkOptions (Some p) None None None None None None None None.

(** An origin function whose lookup fails with an exception, and one that
    returns a promise that rejects. *)
Definition throwing (o : string) (req : IncomingMessage) : PredicateResult :=
  Throws "lookup failed".
Definition rejecting (o : string) (req : IncomingMessage) : PredicateResult :=
  ReturnsPromise (Rejected "lookup failed").

(** [/\.b\.test$/], [/a/g] and [/example\.com/g]. *)
Definition bTest : RegExp := mkRegExp 1 (Patterns.suffix ".b.test") false false.
Definition aGlobal : RegExp := mkRegExp 2 (Patterns.literal "a") true false.
Definition exampleGlobal : RegExp :=
  mkRegExp 3 (Patterns.literal "example.com") true false.

End Examples.

Import Examples.

(** ** Proof support *)

Arguments withHeader : simpl never.
Arguments getHeader : simpl never.
Arguments String_ : simpl never.
Arguments join : simpl never.

(** ** Basic facts *)

Section Headers.

Lemma getHeader_withHeader_eq name v res :
  getHeader name (withHeader name v res) = Some v.
Proof. unfold getHeader, withHeader; simpl. apply lookup_insert_eq. Qed.

Lemma getHeader_withHeader_ne name name' v res :
  toLowerCase name ≠ toLowerCase name' ->
  getHeader name' (withHeader name v res) = getHeader name' res.
Proof. intros Hne. unfold getHeader, withHeader; simpl. by apply lookup_insert_ne. Qed.

End Headers.

(** Reads a header through the writes above it. *)
Ltac peel_headers :=
  repeat first
    [ rewrite getHeader_withHeader_eq
    | rewrite getHeader_withHeader_ne by (vm_compute; discriminate)
    | match goal with
      | |- context [getHeader _ (match ?x with _ => _ end)] => destruct x eqn:?
      end ].

Lemma truthy_false (v : option string) :
  truthy v = false <-> v = None \/ v = Some "".
Proof.
  destruct v as [s|]; simpl.
  - rewrite negb_false_iff, String.eqb_eq. split.
    + intros ->. by right.
    + intros [?|[= ->]]; done.
  - split; [by left|done].
Qed.

(** ** Pattern objects and the store *)

Section RegExpFacts.

Import RegExpObject.

Variables (r : RegExp) (s : string).

Lemma test_store_stateless σ :
  stateful r = false -> (test r s σ).2 = σ.
Proof.
  intros Hst. unfold test, exec, setLastIndex. rewrite Hst.
  destruct (_ <? _)%nat; [done|]. by destruct (scan _ _ _ _).
Qed.

Lemma test_store_other σ i :
  i <> re_id r -> (test r s σ).2 !! i = σ !! i.
Proof.
  intros Hne. unfold test, exec, setLastIndex.
  destruct (stateful r).
  - destruct (_ <? _)%nat; [|destruct (scan _ _ _ _)]; simpl;
      by rewrite lookup_insert_ne.
  - destruct (_ <? _)%nat; [done|]. by destruct (scan _ _ _ _).
Qed.

Lemma test_result_agree σ1 σ2 :
  (stateful r = true -> σ1 !! re_id r = σ2 !! re_id r) ->
  (test r s σ1).1 = (test r s σ2).1.
Proof.
  intros Hag. unfold test, exec, lastIndex.
  destruct (stateful r) eqn:Hst.
  - rewrite (Hag eq_refl).
    destruct (_ <? _)%nat; [done|]. by destruct (scan _ _ _ _).
  - destruct (_ <? _)%nat; [done|]. by destruct (scan _ _ _ _).
Qed.

Lemma test_stateless σ :
  stateful r = false -> test r s σ = ((test r s ∅).1, σ).
Proof.
  intros Hst. rewrite (surjective_pairing (test r s σ)).
  rewrite test_store_stateless by done.
  f_equal. apply test_result_agree. by rewrite Hst.
Qed.

End RegExpFacts.

(** ** Lists of origins *)

Lemma elementTest_accepts o σ x :
  (elementTest o x σ).1 = true <-> accepts o σ x.
Proof.
  destruct x as [s|r]; simpl; [|done]. apply String.eqb_eq.
Qed.

Lemma statefulIds_elem r l :
  ERegExp r ∈ l -> RegExpObject.stateful r = true -> re_id r ∈ statefulIds l.
Proof.
  induction l as [|x l IH]; intros Hin Hst; [by apply elem_of_nil in Hin|].
  apply elem_of_cons in Hin as [<-|Hin]; simpl.
  - rewrite Hst. apply list_elem_of_here.
  - destruct x as [?|r']; [by apply IH|].
    destruct (RegExpObject.stateful r'); [apply list_elem_of_further|]; by apply IH.
Qed.

(** Testing one element leaves the verdict of every element whose pattern
    object is another one as it was. *)
Lemma accepts_after_elementTest o σ x y l :
  y ∈ l -> NoDup (statefulIds (x :: l)) ->
  accepts o (elementTest o x σ).2 y <-> accepts o σ y.
Proof.
  intros Hy Hnd. destruct y as [s|r']; [done|]. simpl.
  destruct x as [s|r]; [done|]. simpl in *.
  enough ((RegExpObject.test r' o (RegExpObject.test r o σ).2).1
          = (RegExpObject.test r' o σ).1) as -> by done.
  apply test_result_agree. intros Hst'.
  destruct (RegExpObject.stateful r) eqn:Hst.
  - apply NoDup_cons in Hnd as [Hnotin _].
    apply test_store_other. intros Heq. apply Hnotin. rewrite <- Heq.
    by apply statefulIds_elem.
  - by rewrite test_store_stateless.
Qed.

Lemma statefulIds_tail x l : NoDup (statefulIds (x :: l)) -> NoDup (statefulIds l).
Proof.
  destruct x as [?|r]; simpl; [done|].
  destruct (RegExpObject.stateful r); [|done]. by intros [_ ?]%NoDup_cons.
Qed.

Lemma some_spec o l σ :
  NoDup (statefulIds l) ->
  (some o l σ).1 = true <-> exists x, x ∈ l /\ accepts o σ x.
Proof.
  revert σ. induction l as [|x l IH]; intros σ Hnd; simpl.
  - split; [done|]. intros (x & Hx & _). by apply elem_of_nil in Hx.
  - pose proof (elementTest_accepts o σ x) as Hx.
    pose proof (fun y Hy => accepts_after_elementTest o σ x y l Hy Hnd) as Hfr.
    destruct (elementTest o x σ) as [b σ1]; simpl in *.
    destruct b.
    + split; [|done]. intros _. exists x. split; [apply list_elem_of_here|by apply Hx].
    + rewrite IH by (by eapply statefulIds_tail). split.
      * intros (y & Hy & Hacc). exists y. split; [by apply list_elem_of_further|].
        by apply (Hfr y Hy).
      * intros (y & Hy & Hacc). apply elem_of_cons in Hy as [->|Hy].
        -- apply Hx in Hacc. done.
        -- exists y. split; [done|]. by apply (Hfr y Hy).
Qed.

(** ** Sequences of header writes *)

Lemma setHeaders_fields ws res :
  statusCode (setHeaders ws res) = statusCode res /\
  body (setHeaders ws res) = body res /\
  writableEnded (setHeaders ws res) = writableEnded res /\
  headersSent (setHeaders ws res) = headersSent res.
Proof.
  unfold setHeaders. revert res. induction ws as [|w ws IH]; intros res; [done|].
  simpl. destruct (IH (withHeader w.1 w.2 res)) as (-> & -> & -> & ->). done.
Qed.

Lemma lookup_setHeaders ws res k :
  outHeaders (setHeaders ws res) !! k
  = match lastWrite k ws with
    | Some v => Some v
    | None => outHeaders res !! k
    end.
Proof.
  unfold setHeaders. revert res. induction ws as [|w ws IH]; intros res; [done|].
  simpl. rewrite IH. destruct (lastWrite k ws); [done|].
  unfold withHeader. simpl. rewrite lookup_insert. by case_decide.
Qed.

Lemma lastWrite_None k ws :
  Forall (fun w => toLowerCase w.1 <> k) ws -> lastWrite k ws = None.
Proof.
  induction 1 as [|w ws Hw _ IH]; simpl; [done|].
  rewrite IH. by case_decide.
Qed.

Lemma response_ext (r1 r2 : ServerResponse) :
  statusCode r1 = statusCode r2 -> outHeaders r1 = outHeaders r2 ->
  body r1 = body r2 -> writableEnded r1 = writableEnded r2 ->
  headersSent r1 = headersSent r2 -> r1 = r2.
Proof. destruct r1, r2; simpl. by intros -> -> -> -> ->. Qed.

Lemma setHeaders_twice ws res :
  setHeaders ws (setHeaders ws res) = setHeaders ws res.
Proof.
  destruct (setHeaders_fields ws (setHeaders ws res)) as (Hst & Hbody & Hend & Hsent).
  apply response_ext; try done.
  apply map_eq. intros k. rewrite !lookup_setHeaders.
  by destruct (lastWrite k ws).
Qed.

(** The calls of a sequence run up to the first that throws: what they leave
    is what the calls that succeed write. *)
Lemma runWrites_unsent ws res :
  headersSent res = false ->
  runWrites ws res
  = (if decide (validPrefix ws = ws) then Normal () else Throw "ERR_INVALID_CHAR",
     setHeaders (validPrefix ws) res).
Proof.
  revert res. induction ws as [|w ws IH]; intros res Hsent.
  - reflexivity.
  - cbn [runWrites validPrefix]. unfold mbind, Action_bind, setHeader. rewrite Hsent.
    destruct (validHeaderValue w.2) eqn:Hv; cbn [negb].
    + rewrite IH by done. unfold setHeaders at 2. cbn [foldl]. f_equal.
      destruct (decide (validPrefix ws = ws)) as [Heq|Hne];
        destruct (decide (w :: validPrefix ws = w :: ws)) as [Heq'|Hne'];
        try done.
      * destruct Hne'. by rewrite Heq.
      * destruct Hne. by injection Heq'.
    + destruct (decide ([] = w :: ws)); done.
Qed.

Lemma runWrites_sent ws res :
  headersSent res = true ->
  runWrites ws res
  = (if decide (ws = []) then Normal () else Throw "ERR_HTTP_HEADERS_SENT", res).
Proof.
  intros Hsent. destruct ws as [|w ws]; simpl; [done|].
  unfold mbind, Action_bind, setHeader. by rewrite Hsent.
Qed.

Lemma runWrites_response ws res :
  (runWrites ws res).2 = setHeaders (written ws res) res.
Proof.
  unfold written. destruct (headersSent res) eqn:Hsent.
  - by rewrite runWrites_sent.
  - by rewrite runWrites_unsent.
Qed.

Lemma runWrites_Normal ws res :
  (runWrites ws res).1 = Normal () <-> written ws res = ws.
Proof.
  unfold written. destruct (headersSent res) eqn:Hsent.
  - rewrite runWrites_sent by done. simpl. case_decide; split; done.
  - rewrite runWrites_unsent by done. simpl. case_decide; split; done.
Qed.

Lemma validPrefix_all ws :
  Forall (fun w => validHeaderValue w.2 = true) ws -> validPrefix ws = ws.
Proof.
  induction 1 as [|w ws Hw _ IH]; simpl; [done|]. by rewrite Hw, IH.
Qed.

Lemma validPrefix_Forall (P : string * string -> Prop) ws :
  Forall P ws -> Forall P (validPrefix ws).
Proof.
  induction 1 as [|w ws Hw _ IH]; simpl; [done|].
  destruct (validHeaderValue w.2); [by constructor|done].
Qed.

Lemma written_Forall (P : string * string -> Prop) ws res :
  Forall P ws -> Forall P (written ws res).
Proof.
  intros H. unfold written. destruct (headersSent res); [done|].
  by apply validPrefix_Forall.
Qed.

Lemma written_all ws res :
  headersSent res = false ->
  Forall (fun w => validHeaderValue w.2 = true) ws -> written ws res = ws.
Proof. intros Hsent Hv. unfold written. rewrite Hsent. by apply validPrefix_all. Qed.

(** When all calls succeeded the head had not been generated (if there was
    a call at all) and every value was accepted. *)
Lemma written_all_inv ws res :
  written ws res = ws -> ws <> [] ->
  headersSent res = false /\ Forall (fun w => validHeaderValue w.2 = true) ws.
Proof.
  unfold written. destruct (headersSent res); [by intros <-|].
  intros Heq _. split; [done|].
  induction ws as [|w ws IH]; [done|]. simpl in Heq.
  destruct (validHeaderValue w.2) eqn:Hv; [|done].
  injection Heq as Heq. constructor; [done|by apply IH].
Qed.

(** ** Texts that are accepted as header values *)

Lemma all_ascii_app p s1 s2 :
  all_ascii p (s1 +:+ s2) = all_ascii p s1 && all_ascii p s2.
Proof.
  induction s1 as [|c s1 IH]; simpl; [done|]. by rewrite IH, andb_assoc.
Qed.

Lemma validHeaderValue_join l :
  forallb validHeaderValue l = true -> validHeaderValue (join "," l) = true.
Proof.
  unfold join, validHeaderValue.
  induction l as [|x l IH]; simpl; [done|].
  intros [Hx Hl]%andb_true_iff. destruct l as [|y l]; [done|].
  rewrite !all_ascii_app, Hx, IH by done. done.
Qed.

Lemma pretty_N_go_valid x s :
  validHeaderValue s = true -> validHeaderValue (pretty_N_go x s) = true.
Proof.
  revert s. induction (N.lt_wf_0 x) as [x _ IH]; intros s Hs.
  destruct (decide (x = 0)%N) as [->|Hx]; [by rewrite pretty_N_go_0|].
  rewrite pretty_N_go_step by lia. apply IH.
  - apply N.div_lt; lia.
  - unfold validHeaderValue in *. simpl. rewrite Hs, andb_true_r.
    unfold pretty_N_char. by repeat case_match.
Qed.

Lemma validHeaderValue_String n : validHeaderValue (String_ n) = true.
Proof.
  unfold String_, pretty, pretty_Z.
  assert (forall p : positive, validHeaderValue (pretty p) = true) as Hpos.
  { intros p. unfold pretty, pretty_positive, pretty, pretty_N.
    case_decide; [done|]. by apply pretty_N_go_valid. }
  destruct n as [|p|p]; [done|apply Hpos|].
  unfold validHeaderValue. rewrite all_ascii_app. simpl. apply Hpos.
Qed.

(** ** The header writes of the handler *)

Lemma bind_skip (a : Action ()) res : (a ;; skip) res = a res.
Proof.
  unfold mbind, Action_bind, skip, mret, Action_ret.
  by destruct (a res) as [[[]|e] r].
Qed.

Lemma runWrites_app ws1 ws2 res :
  runWrites (ws1 ++ ws2) res = (runWrites ws1 ;; runWrites ws2) res.
Proof.
  revert res. induction ws1 as [|w ws1 IH]; intros res; simpl; [done|].
  unfold mbind, Action_bind in *.
  destruct (setHeader w.1 w.2 res) as [[[]|e] r]; [|done]. apply IH.
Qed.

Lemma runWrites_seq (a b : Action ()) ws1 ws2 :
  (forall res, a res = runWrites ws1 res) ->
  (forall res, b res = runWrites ws2 res) ->
  forall res, (a ;; b) res = runWrites (ws1 ++ ws2) res.
Proof.
  intros Ha Hb res. rewrite runWrites_app.
  unfold mbind, Action_bind. rewrite Ha.
  destruct (runWrites ws1 res) as [[[]|e] r]; [apply Hb|done].
Qed.

Lemma runWrites_one name value res :
  setHeader name value res = runWrites [(name, value)] res.
Proof. cbn [runWrites fst snd]. by rewrite bind_skip. Qed.

Lemma runWrites_two name value name' value' res :
  (setHeader name value ;; setHeader name' value') res
  = runWrites [(name, value); (name', value')] res.
Proof.
  cbn [runWrites fst snd]. unfold mbind at 1 2, Action_bind at 1 2.
  destruct (setHeader name value res) as [[[]|e] r]; [|done].
  by rewrite bind_skip.
Qed.

(** Lines 83-101 make the calls of [headerWrites], in that order. *)
Lemma setCorsHeaders_writes options req res :
  setCorsHeaders (policy options)
    (default ["GET"; "HEAD"; "PUT"; "PATCH"; "POST"; "DELETE"] (methods options))
    (allowedHeaders options) (exposedHeaders options)
    (default false (credentials options)) (maxAge options) req res
  = runWrites (headerWrites options req) res.
Proof.
  revert res. unfold setCorsHeaders, headerWrites. cbv zeta.
  repeat apply runWrites_seq; intros res.
  - destruct (truthy (headers req !! "origin")); [apply runWrites_two|done].
  - apply runWrites_one.
  - destruct (allowedHeaders options); [apply runWrites_one|].
    destruct (truthy _); [apply runWrites_one|done].
  - destruct (exposedHeaders options); [apply runWrites_one|done].
  - destruct (default false (credentials options)); [apply runWrites_one|done].
  - destruct (maxAge options); [apply runWrites_one|done].
Qed.

Lemma headerWrites_nonempty options req : headerWrites options req <> [].
Proof.
  unfold headerWrites. cbv zeta.
  destruct (truthy (headers req !! "origin")); simpl; done.
Qed.

(** Every call is for one of the seven names. *)
Lemma headerWrites_names options req :
  Forall (fun w => w.1 ∈ corsHeaderNames) (headerWrites options req).
Proof.
  unfold headerWrites, corsHeaderNames. cbv zeta.
  repeat apply Forall_app_2;
    repeat match goal with
      | |- Forall _ (match ?x with _ => _ end) => destruct x
      end;
    repeat constructor; simpl; set_solver.
Qed.

Lemma headerWrites_foreign options req name :
  foreign name ->
  Forall (fun w => toLowerCase w.1 <> toLowerCase name) (headerWrites options req).
Proof.
  intros Hf. eapply Forall_impl; [apply headerWrites_names|].
  intros w Hw. simpl in Hw.
  unfold foreign in Hf. rewrite Forall_forall in Hf. by apply Hf.
Qed.

(** Every value is accepted when configuration and request are valid. *)
Lemma headerWrites_valid options req :
  validOptions options = true -> validRequest req = true ->
  Forall (fun w => validHeaderValue w.2 = true) (headerWrites options req).
Proof.
  unfold validOptions, validRequest.
  intros Hopt [Ho Hr]%andb_true_iff.
  apply andb_true_iff in Hopt as [Hopt _].
  apply andb_true_iff in Hopt as [Hopt He].
  apply andb_true_iff in Hopt as [Hm Ha].
  unfold headerWrites. cbv zeta.
  repeat apply Forall_app_2.
  - destruct (truthy (headers req !! "origin")); [|constructor].
    constructor; [|by repeat constructor]. simpl.
    destruct (isStar (policy options)); [done|].
    by destruct (headers req !! "origin").
  - constructor; [|constructor]. simpl. apply validHeaderValue_join.
    by destruct (methods options).
  - destruct (allowedHeaders options) as [hs|]; simpl in Ha.
    + constructor; [|constructor]. by apply validHeaderValue_join.
    + destruct (truthy (headers req !! "access-control-request-headers"));
        [|constructor].
      constructor; [|constructor]. simpl.
      by destruct (headers req !! "access-control-request-headers").
  - destruct (exposedHeaders options) as [hs|]; simpl in He; [|constructor].
    constructor; [|constructor]. by apply validHeaderValue_join.
  - destruct (default false (credentials options)); by repeat constructor.
  - destruct (maxAge options); [|constructor].
    constructor; [|constructor]. apply validHeaderValue_String.
Qed.

(** ** The decision *)

(** Answering a preflight: lines 108-109. *)
Section Answer.

Variables (code : Z) (res : ServerResponse).

Let answered := (setStatusCode code ;; end_) res.

Lemma answer_headers name :
  getHeader name answered.2 = getHeader name res.
Proof.
  subst answered. unfold mbind, Action_bind, setStatusCode, end_, getHeader.
  cbn [statusCode outHeaders body writableEnded headersSent].
  by repeat (case_match; simplify_eq/=).
Qed.

Lemma answer_body : body answered.2 = body res.
Proof.
  subst answered. unfold mbind, Action_bind, setStatusCode, end_.
  cbn [statusCode outHeaders body writableEnded headersSent].
  by repeat (case_match; simplify_eq/=).
Qed.

(** With a status code from 100 to 999 the response is ended with it. *)
Lemma answer_valid :
  (100 <=? code)%Z && (code <=? 999)%Z = true ->
  answered.1 = Normal () /\ statusCode answered.2 = code /\
  writableEnded answered.2 = true.
Proof.
  intros [Hlo Hhi]%andb_true_iff. apply Z.leb_le in Hlo, Hhi.
  subst answered. unfold mbind, Action_bind, setStatusCode, end_.
  cbn [statusCode outHeaders body writableEnded headersSent].
  assert (toInt32 code = code) as ->.
  { unfold toInt32. rewrite Z.mod_small; lia. }
  destruct (writableEnded res) eqn:Hend; [done|].
  destruct (headersSent res); [done|].
  assert ((code <? 100)%Z || (999 <? code)%Z = false) as ->; [|done].
  apply orb_false_iff. split; apply Z.ltb_ge; lia.
Qed.

Lemma answer_Normal :
  answered.1 = Normal () -> writableEnded answered.2 = true.
Proof.
  subst answered. unfold mbind, Action_bind, setStatusCode, end_.
  cbn [statusCode outHeaders body writableEnded headersSent].
  by repeat (case_match; simplify_eq/=).
Qed.

Lemma answer_Throw e :
  answered.1 = Throw e ->
  writableEnded answered.2 = writableEnded res /\ statusCode answered.2 = code.
Proof.
  subst answered. unfold mbind, Action_bind, setStatusCode, end_.
  cbn [statusCode outHeaders body writableEnded headersSent].
  by repeat (case_match; simplify_eq/=).
Qed.

End Answer.

(** The handler, by the way the matching step completes. *)
Section Runs.

Variables (options : CrossCorsOptions) (req : IncomingMessage)
          (res : ServerResponse) (σ σ' : Store).

Let matching := matchOrigin (Some (policy options)) (headers req !! "origin") req σ.

Lemma run_denied :
  matching = (Normal (Fulfilled false), σ') ->
  outcome (crosscors options req res σ) = Fulfilled false /\
  response (crosscors options req res σ) = res /\
  store (crosscors options req res σ) = σ'.
Proof.
  subst matching. unfold crosscors, handleCors, policy. by intros ->.
Qed.

Lemma run_failed e :
  matching = (Throw e, σ') \/ matching = (Normal (Rejected e), σ') ->
  crosscors options req res σ = mkRun (Rejected e) res σ' [].
Proof.
  subst matching. unfold crosscors, handleCors, policy. by intros [-> | ->].
Qed.

Lemma run_pending :
  matching = (Normal Pending, σ') ->
  crosscors options req res σ = mkRun Pending res σ' [].
Proof. subst matching. unfold crosscors, handleCors, policy. by intros ->. Qed.

(** An allowed request: the header writes run up to the first that throws;
    when none does, the request is passed on or the preflight answered. *)
Lemma run_allowed :
  matching = (Normal (Fulfilled true), σ') ->
  let run := crosscors options req res σ in
  let ws := headerWrites options req in
  let res1 := setHeaders (written ws res) res in
  let out :=
    if default false (log options) && truthy (headers req !! "origin")
    then [(Info, "[crosscors] Allowed: " +:+ default "" (headers req !! "origin"))]
    else [] in
  let answered :=
    (setStatusCode (default 204%Z (optionsSuccessStatus options)) ;; end_) res1 in
  store run = σ' /\
  (written ws res <> ws ->
     (exists e, outcome run = Rejected e) /\ response run = res1 /\
     console run = []) /\
  (written ws res = ws ->
     console run = out /\
     if (reqMethod req =? "OPTIONS")
        && negb (default false (preflightContinue options))
     then response run = answered.2 /\
          outcome run = match answered.1 with
                        | Normal _ => Fulfilled true
                        | Throw e => Rejected e
                        end
     else response run = res1 /\ outcome run = Fulfilled false).
Proof.
  subst matching. intros Hm. cbv zeta.
  unfold crosscors, handleCors. fold (policy options). cbv zeta. rewrite Hm.
  rewrite setCorsHeaders_writes.
  pose proof (runWrites_response (headerWrites options req) res) as Hres.
  pose proof (runWrites_Normal (headerWrites options req) res) as Hnorm.
  destruct (runWrites (headerWrites options req) res) as [[[]|e] r];
    simpl in Hres, Hnorm; subst r.
  - assert (written (headerWrites options req) res = headerWrites options req)
      as Hall by (by apply Hnorm).
    destruct (reqMethod req =? "OPTIONS");
      [destruct (default false (preflightContinue options))|]; simpl.
    + split; [done|]. split; [intros Hne; by destruct Hne|]. done.
    + destruct ((setStatusCode _ ;; end_) _) as [[[]|e] r]; simpl;
        (split; [done|]); (split; [intros Hne; by destruct Hne|]); done.
    + split; [done|]. split; [intros Hne; by destruct Hne|]. done.
  - simpl. split; [done|]. split; [by eauto|].
    intros Hall. apply Hnorm in Hall. done.
Qed.

End Runs.

Lemma run_store options req res σ :
  store (crosscors options req res σ)
  = (matchOrigin (Some (policy options)) (headers req !! "origin") req σ).2.
Proof.
  destruct (matchOrigin (Some (policy options)) (headers req !! "origin") req σ)
    as [c σ'] eqn:Hm.
  destruct c as [[[]| |]|].
  - by destruct (run_allowed options req res σ σ' Hm) as (-> & _).
  - by destruct (run_denied options req res σ σ' Hm) as (_ & _ & ->).
  - by rewrite (run_failed options req res σ σ' e) by (by right).
  - by rewrite (run_pending options req res σ σ' Hm).
  - by rewrite (run_failed options req res σ σ' e) by (by left).
Qed.

(** A call the platform accepts makes every header write. *)
Lemma ready_written options req res :
  ready options req res ->
  written (headerWrites options req) res = headerWrites options req.
Proof.
  intros (Hsent & Hopt & Hreq). apply written_all; [done|].
  by apply headerWrites_valid.
Qed.

(** On allow, in a call the platform accepts, the headers of the response
    are those of [corsHeaders], also when the preflight is answered. *)
Lemma allowed_getHeader options req res σ name :
  allowed options req σ -> ready options req res ->
  getHeader name (response (crosscors options req res σ))
  = getHeader name (corsHeaders options req res).
Proof.
  intros [σ' Hm] Hready.
  destruct (run_allowed options req res σ σ' Hm) as (_ & _ & Hall).
  destruct (Hall (ready_written _ _ _ Hready)) as (_ & Hrun).
  rewrite ready_written in Hrun by done. fold (corsHeaders options req res) in Hrun.
  revert Hrun.
  destruct ((reqMethod req =? "OPTIONS")
            && negb (default false (preflightContinue options)));
    intros [-> _]; [apply answer_headers|done].
Qed.

(** Splits on the conditions of [headerWrites] and runs the writes. *)
Ltac cors_cases options req :=
  destruct (truthy (headers req !! "origin")) eqn:?,
    (allowedHeaders options) eqn:?,
    (truthy (headers req !! "access-control-request-headers")) eqn:?,
    (exposedHeaders options) eqn:?,
    (default false (credentials options)) eqn:?,
    (maxAge options) eqn:?;
  cbn [foldl app fst snd].

(** What [corsHeaders] leaves in the response, header by header. *)
Section CorsHeaders.

Variables (options : CrossCorsOptions) (req : IncomingMessage)
          (res : ServerResponse).

Let res' := corsHeaders options req res.
Let reqOrigin := headers req !! "origin".
Let requested := headers req !! "access-control-request-headers".

Lemma corsHeaders_fields :
  statusCode res' = statusCode res /\ body res' = body res /\
  writableEnded res' = writableEnded res.
Proof.
  subst res'. unfold corsHeaders.
  destruct (setHeaders_fields (headerWrites options req) res) as (-> & -> & -> & _).
  done.
Qed.

Lemma corsHeaders_allow_origin :
  getHeader "Access-Control-Allow-Origin" res' =
    if truthy reqOrigin
    then Some (if isStar (policy options) then "*" else default "" reqOrigin)
    else getHeader "Access-Control-Allow-Origin" res.
Proof.
  subst res' reqOrigin. unfold corsHeaders, headerWrites, setHeaders. cbv zeta.
  cors_cases options req; peel_headers; done.
Qed.

Lemma corsHeaders_vary :
  getHeader "Vary" res' =
    if truthy reqOrigin then Some "Origin" else getHeader "Vary" res.
Proof.
  subst res' reqOrigin. unfold corsHeaders, headerWrites, setHeaders. cbv zeta.
  cors_cases options req; peel_headers; done.
Qed.

Lemma corsHeaders_allow_methods :
  getHeader "Access-Control-Allow-Methods" res' =
    Some (join "," (default ["GET"; "HEAD"; "PUT"; "PATCH"; "POST"; "DELETE"]
                      (methods options))).
Proof.
  subst res'. unfold corsHeaders, headerWrites, setHeaders. cbv zeta.
  cors_cases options req; peel_headers; done.
Qed.

Lemma corsHeaders_allow_headers :
  getHeader "Access-Control-Allow-Headers" res' =
    match allowedHeaders options with
    | Some hs => Some (join "," hs)
    | None =>
        if truthy requested then Some (default "" requested)
        else getHeader "Access-Control-Allow-Headers" res
    end.
Proof.
  subst res' requested. unfold corsHeaders, headerWrites, setHeaders. cbv zeta.
  cors_cases options req; peel_headers; done.
Qed.

Lemma corsHeaders_expose_headers :
  getHeader "Access-Control-Expose-Headers" res' =
    match exposedHeaders options with
    | Some hs => Some (join "," hs)
    | None => getHeader "Access-Control-Expose-Headers" res
    end.
Proof.
  subst res'. unfold corsHeaders, headerWrites, setHeaders. cbv zeta.
  cors_cases options req; peel_headers; done.
Qed.

Lemma corsHeaders_allow_credentials :
  getHeader "Access-Control-Allow-Credentials" res' =
    if default false (credentials options) then Some "true"
    else getHeader "Access-Control-Allow-Credentials" res.
Proof.
  subst res'. unfold corsHeaders, headerWrites, setHeaders. cbv zeta.
  cors_cases options req; peel_headers; done.
Qed.

Lemma corsHeaders_max_age :
  getHeader "Access-Control-Max-Age" res' =
    match maxAge options with
    | Some n => Some (String_ n)
    | None => getHeader "Access-Control-Max-Age" res
    end.
Proof.
  subst res'. unfold corsHeaders, headerWrites, setHeaders. cbv zeta.
  cors_cases options req; peel_headers; done.
Qed.

End CorsHeaders.

(** On allow the headers of the response are those the writes that
    succeeded left, also when the preflight is answered or [end] throws. *)
Lemma allowed_getHeader_written options req res σ name :
  allowed options req σ ->
  getHeader name (response (crosscors options req res σ))
  = getHeader name (setHeaders (written (headerWrites options req) res) res).
Proof.
  intros [σ' Hm].
  destruct (run_allowed options req res σ σ' Hm) as (_ & Hthrow & Hall).
  destruct (decide (written (headerWrites options req) res
                    = headerWrites options req)) as [Heq|Hne].
  - destruct (Hall Heq) as (_ & Hrun). revert Hrun.
    destruct ((reqMethod req =? "OPTIONS")
              && negb (default false (preflightContinue options)));
      intros [-> _]; [apply answer_headers|done].
  - by destruct (Hthrow Hne) as (_ & -> & _).
Qed.

(** An allowed request in a call the platform accepts: every header is
    written, and the request is passed on or the preflight answered. *)
Lemma run_ready options req res σ :
  allowed options req σ -> ready options req res ->
  let run := crosscors options req res σ in
  let answered :=
    (setStatusCode (default 204%Z (optionsSuccessStatus options)) ;; end_)
      (corsHeaders options req res) in
  console run
  = (if default false (log options) && truthy (headers req !! "origin")
     then [(Info, "[crosscors] Allowed: " +:+ default "" (headers req !! "origin"))]
     else []) /\
  if (reqMethod req =? "OPTIONS")
     && negb (default false (preflightContinue options))
  then response run = answered.2 /\
       outcome run = match answered.1 with
                     | Normal _ => Fulfilled true
                     | Throw e => Rejected e
                     end
  else response run = corsHeaders options req res /\ outcome run = Fulfilled false.
Proof.
  intros [σ' Hm] Hready. cbv zeta.
  destruct (run_allowed options req res σ σ' Hm) as (_ & _ & Hall).
  specialize (Hall (ready_written _ _ _ Hready)).
  rewrite ready_written in Hall by done. exact Hall.
Qed.

(** The writes for a request with an origin start with
    Access-Control-Allow-Origin and Vary; no other write is for these two
    names. *)
Lemma headerWrites_origin options req :
  exists rest,
    headerWrites options req
    = ((if truthy (headers req !! "origin")
        then [ ("Access-Control-Allow-Origin",
                if isStar (policy options) then "*"
                else default "" (headers req !! "origin"));
               ("Vary", "Origin") ]
        else []) ++ rest)%list /\
    Forall (fun w => toLowerCase w.1 <> "access-control-allow-origin" /\
                     toLowerCase w.1 <> "vary") rest.
Proof.
  eexists. split; [reflexivity|].
  repeat apply Forall_app_2;
    repeat match goal with
      | |- Forall _ (match ?x with _ => _ end) => destruct x
      end;
    repeat constructor; vm_compute; discriminate.
Qed.

Lemma getHeader_setHeaders_None name ws res :
  Forall (fun w => toLowerCase w.1 <> toLowerCase name) ws ->
  getHeader name (setHeaders ws res) = getHeader name res.
Proof.
  intros Hws. unfold getHeader. rewrite lookup_setHeaders.
  by rewrite lastWrite_None.
Qed.

(** What the writes that succeeded leave for Access-Control-Allow-Origin and
    Vary: both are written, or none of them. *)
Lemma written_origin options req res :
  let ws := written (headerWrites options req) res in
  let value := if isStar (policy options) then "*"
               else default "" (headers req !! "origin") in
  if truthy (headers req !! "origin") && negb (headersSent res)
     && validHeaderValue value
  then getHeader "Access-Control-Allow-Origin" (setHeaders ws res) = Some value /\
       getHeader "Vary" (setHeaders ws res) = Some "Origin"
  else getHeader "Access-Control-Allow-Origin" (setHeaders ws res)
       = getHeader "Access-Control-Allow-Origin" res /\
       getHeader "Vary" (setHeaders ws res) = getHeader "Vary" res.
Proof.
  cbv zeta. destruct (headerWrites_origin options req) as (rest & -> & Hrest).
  assert (forall l res0,
    Forall (fun w => toLowerCase w.1 <> "access-control-allow-origin" /\
                     toLowerCase w.1 <> "vary") l ->
    getHeader "Access-Control-Allow-Origin" (setHeaders l res0)
    = getHeader "Access-Control-Allow-Origin" res0 /\
    getHeader "Vary" (setHeaders l res0) = getHeader "Vary" res0) as Hother.
  { intros l res0 Hl. split; apply getHeader_setHeaders_None;
      (eapply Forall_impl; [exact Hl|]); by intros w [? ?]. }
  unfold written. destruct (headersSent res); [by rewrite !andb_false_r|].
  destruct (truthy (headers req !! "origin")); cbn [andb negb app].
  - set (value := if isStar (policy options) then "*"
                  else default "" (headers req !! "origin")).
    assert (validPrefix (("Access-Control-Allow-Origin", value)
                         :: ("Vary", "Origin") :: rest)
            = if validHeaderValue value
              then ("Access-Control-Allow-Origin", value)
                   :: ("Vary", "Origin") :: validPrefix rest
              else []) as -> by reflexivity.
    destruct (validHeaderValue value); [|done].
    change (setHeaders (("Access-Control-Allow-Origin", value)
                        :: ("Vary", "Origin") :: validPrefix rest) res)
      with (setHeaders (validPrefix rest)
              (withHeader "Vary" "Origin"
                 (withHeader "Access-Control-Allow-Origin" value res))).
    destruct (Hother (validPrefix rest)
                (withHeader "Vary" "Origin"
                   (withHeader "Access-Control-Allow-Origin" value res)))
      as [-> ->]; [by apply validPrefix_Forall|].
    peel_headers; done.
  - apply Hother. by apply validPrefix_Forall.
Qed.

(** ** The handler on the requests of the specification *)

Section Walkthrough.

Let run (p : CrossCorsOrigin) (m o : string) : Run :=
  crosscors (withOrigin p) (request (Some m) o) fresh ∅.

Example exact_string_allows :
  getHeader "Access-Control-Allow-Origin"
    (response (run (OString "https://a.test") "GET" "https://a.test"))
  = Some "https://a.test".
Proof. reflexivity. Qed.

Example exact_string_denies :
  response (run (OString "https://a.test") "GET" "https://b.test") = fresh.
Proof. reflexivity. Qed.

Example list_allows_by_pattern :
  let l := OArray [EString "https://a.test"; ERegExp bTest] in
  outcome (run l "OPTIONS" "https://x.b.test") = Fulfilled true /\
  outcome (run l "OPTIONS" "https://a.test") = Fulfilled true /\
  response (run l "OPTIONS" "https://c.test") = fresh.
Proof. repeat split. Qed.

Example default_methods :
  getHeader "Access-Control-Allow-Methods"
    (response (crosscors noOptions (request (Some "GET") "https://a.test") fresh ∅))
  = Some "GET,HEAD,PUT,PATCH,POST,DELETE".
Proof. reflexivity. Qed.

Example max_age_header :
  getHeader "Access-Control-Max-Age"
    (response (crosscors (mkOptions None None None None (Some true) (Some 3600%Z)
                            None None None)
                 (request (Some "GET") "https://a.test") fresh ∅))
  = Some "3600".
Proof. reflexivity. Qed.

(** A sticky or global pattern remembers where its last match ended. *)
Example global_pattern_lastIndex :
  RegExpObject.test exampleGlobal "https://example.com" ∅ = (true, {[ 3 := 19 ]}) /\
  RegExpObject.test exampleGlobal "https://example.com" {[ 3 := 19 ]}
  = (false, {[ 3 := 0 ]}).
Proof. split; reflexivity. Qed.

(** Where the platform throws, the promise of the handler rejects and the
    response keeps what was done before. A status code [end] refuses: the
    headers and the status code are set, the response is not ended. *)
Example status_out_of_range :
  let run := crosscors (mkOptions None None None None None None None (Some 1000%Z) None)
               (request (Some "OPTIONS") "https://a.test") fresh ∅ in
  outcome run = Rejected "ERR_HTTP_INVALID_STATUS_CODE" /\
  statusCode (response run) = 1000%Z /\
  writableEnded (response run) = false /\
  getHeader "Access-Control-Allow-Methods" (response run)
  = Some "GET,HEAD,PUT,PATCH,POST,DELETE".
Proof. repeat split. Qed.

(** A line feed in a configured method: the two headers before it are set,
    Access-Control-Allow-Methods and the ones after it are not. *)
Example line_feed_in_methods :
  let run := crosscors (mkOptions None (Some ["GET"; String "010" "POST"]) None None
                          (Some true) None None None (Some true))
               (request (Some "GET") "https://a.test") fresh ∅ in
  outcome run = Rejected "ERR_INVALID_CHAR" /\
  getHeader "Access-Control-Allow-Origin" (response run) = Some "*" /\
  getHeader "Vary" (response run) = Some "Origin" /\
  getHeader "Access-Control-Allow-Methods" (response run) = None /\
  getHeader "Access-Control-Allow-Credentials" (response run) = None /\
  console run = [].
Proof. repeat split. Qed.

(** A response whose head has been sent: nothing is set. *)
Example head_already_sent :
  let sent := mkResponse 200 ∅ "" false true in
  crosscors noOptions (request (Some "OPTIONS") "https://a.test") sent ∅
  = mkRun (Rejected "ERR_HTTP_HEADERS_SENT") sent ∅ [].
Proof. reflexivity. Qed.

End Walkthrough.

(** ** C1: a failing origin function *)

(** C1, as the claim states it, fails: when the origin function throws, or
    returns a promise that rejects, neither [matchOrigin] nor the handler
    settles on a denial; the handler rejects with the error of the function. *)
Lemma predicate_failure_is_not_denial :
  (matchOrigin (Some (OFunction throwing)) (Some "https://a.test")
     (request (Some "GET") "https://a.test") ∅ = (Throw "lookup failed", ∅) /\
   outcome (crosscors (withOrigin (OFunction throwing))
              (request (Some "GET") "https://a.test") fresh ∅)
   = Rejected "lookup failed") /\
  (matchOrigin (Some (OFunction rejecting)) (Some "https://a.test")
     (request (Some "GET") "https://a.test") ∅
   = (Normal (Rejected "lookup failed"), ∅) /\
   outcome (crosscors (withOrigin (OFunction rejecting))
              (request (Some "GET") "https://a.test") fresh ∅)
   = Rejected "lookup failed") /\
  Rejected "lookup failed" <> Fulfilled false.
Proof. repeat split; try reflexivity. discriminate. Qed.

(** C1, amended. When the origin policy is a function and its call throws
    or its promise rejects, the failure is passed on: [matchOrigin] throws,
    or returns the rejected promise, the promise of the handler rejects
    with the same error, and the response is left as it was (no header set,
    status code and ended state untouched). *)
Theorem predicate_failure_propagates options f req res σ o e :
  origin options = Some (OFunction f) ->
  headers req !! "origin" = Some o -> o <> "" ->
  f o req = Throws e \/ f o req = ReturnsPromise (Rejected e) ->
  (f o req = Throws e ->
     matchOrigin (Some (OFunction f)) (Some o) req σ = (Throw e, σ)) /\
  (f o req = ReturnsPromise (Rejected e) ->
     matchOrigin (Some (OFunction f)) (Some o) req σ = (Normal (Rejected e), σ)) /\
  outcome (crosscors options req res σ) = Rejected e /\
  response (crosscors options req res σ) = res.
Proof.
  intros Hpol Ho Hne Hf. apply String.eqb_neq in Hne.
  assert (matchOrigin (Some (OFunction f)) (Some o) req σ
          = match f o req with
            | ReturnsBoolean b => (Normal (Fulfilled b), σ)
            | ReturnsPromise p => (Normal p, σ)
            | Throws e => (Throw e, σ)
            end) as Hm.
  { unfold matchOrigin. simpl. by rewrite Hne. }
  split; [intros Hf'; by rewrite Hm, Hf'|].
  split; [intros Hf'; by rewrite Hm, Hf'|].
  assert (crosscors options req res σ = mkRun (Rejected e) res σ []) as ->; [|done].
  apply run_failed. unfold policy. rewrite Hpol, Ho. simpl. rewrite Hm.
  destruct Hf as [-> | ->]; [by left|by right].
Qed.

Lemma predicate_failure_propagates_witness :
  outcome (crosscors (withOrigin (OFunction throwing))
             (request (Some "OPTIONS") "https://a.test") fresh ∅)
  = Rejected "lookup failed" /\
  response (crosscors (withOrigin (OFunction throwing))
              (request (Some "OPTIONS") "https://a.test") fresh ∅) = fresh.
Proof.
  apply (predicate_failure_propagates
           (withOrigin (OFunction throwing)) throwing
           (request (Some "OPTIONS") "https://a.test") fresh ∅
           "https://a.test" "lookup failed").
  - reflexivity.
  - reflexivity.
  - discriminate.
  - left. reflexivity.
Defined.

(** ** C2: a list of origins *)

(** C2, as the claim states it, fails: inside a list the string ["*"] is
    compared with the request origin like any other string, and matches no
    origin but ["*"] itself. *)
Lemma star_in_list_is_no_wildcard :
  matchOrigin (Some (OArray [EString "*"])) (Some "https://a.test")
    (request (Some "GET") "https://a.test") ∅
  = (Normal (Fulfilled false), ∅).
Proof. reflexivity. Qed.

(** C2, amended. For a list policy whose pattern objects with [g] or [y]
    are pairwise distinct, and a request origin that is present and not
    empty, [matchOrigin] resolves to [true] if and only if some element of
    the list accepts the origin: a string element (["*"] included) by
    byte-for-byte equality, a pattern element by its [test]. An empty list
    gives [false]. *)
Theorem matchOrigin_list l o req σ :
  o <> "" -> NoDup (statefulIds l) ->
  exists b σ',
    matchOrigin (Some (OArray l)) (Some o) req σ = (Normal (Fulfilled b), σ') /\
    (b = true <-> exists x, x ∈ l /\ accepts o σ x) /\
    (l = [] -> b = false).
Proof.
  intros Hne Hnd. apply String.eqb_neq in Hne.
  exists (some o l σ).1, (some o l σ).2. split; [|split].
  - unfold matchOrigin. simpl. rewrite Hne. simpl. by destruct (some o l σ).
  - by apply some_spec.
  - by intros ->.
Qed.

Lemma matchOrigin_list_witness :
  exists b σ',
    matchOrigin (Some (OArray [EString "https://a.test"; ERegExp aGlobal; ERegExp bTest]))
      (Some "https://x.b.test") (request (Some "GET") "https://x.b.test") ∅
    = (Normal (Fulfilled b), σ') /\
    (b = true <->
       exists x, x ∈ [EString "https://a.test"; ERegExp aGlobal; ERegExp bTest]
                 /\ accepts "https://x.b.test" ∅ x) /\
    ([EString "https://a.test"; ERegExp aGlobal; ERegExp bTest] = [] -> b = false).
Proof.
  apply (matchOrigin_list [EString "https://a.test"; ERegExp aGlobal; ERegExp bTest]
           "https://x.b.test" (request (Some "GET") "https://x.b.test") ∅).
  - discriminate.
  - simpl. apply NoDup_singleton.
Defined.

(** ** C3: denial *)

(** C3. On denial the handler resolves to [false] and hands the response
    back as it received it: no header is set, the status code is untouched
    and the response is not ended, for every configuration and request. *)
Theorem denial_leaves_response options req res σ :
  denied options req σ ->
  outcome (crosscors options req res σ) = Fulfilled false /\
  response (crosscors options req res σ) = res.
Proof.
  intros [σ' Hm]. destruct (run_denied options req res σ σ' Hm) as (? & ? & _).
  done.
Qed.

Lemma denial_leaves_response_witness :
  outcome (crosscors (withOrigin (OString "https://a.test"))
             (request (Some "OPTIONS") "https://b.test") fresh ∅) = Fulfilled false /\
  response (crosscors (withOrigin (OString "https://a.test"))
              (request (Some "OPTIONS") "https://b.test") fresh ∅) = fresh.
Proof.
  apply (denial_leaves_response (withOrigin (OString "https://a.test"))
           (request (Some "OPTIONS") "https://b.test") fresh ∅).
  exists ∅. reflexivity.
Defined.

(** ** C4: a string policy *)

(** C4, as the claim states it, fails on the empty string: that policy is
    taken for an absent one and allows every request, with or without an
    origin, although it is neither ["*"] nor equal to the request origin. *)
Lemma empty_string_policy_allows :
  matchOrigin (Some (OString "")) (Some "https://a.test")
    (request (Some "GET") "https://a.test") ∅ = (Normal (Fulfilled true), ∅) /\
  matchOrigin (Some (OString "")) None (anonymous (Some "GET")) ∅
  = (Normal (Fulfilled true), ∅) /\
  "" <> "*" /\ "" <> "https://a.test".
Proof. repeat split; try reflexivity; discriminate. Qed.

(** C4, amended. For a string policy [matchOrigin] resolves to [true] if and
    only if the string is empty (it then stands for an absent policy), or
    the request origin is present, not empty, and the string is ["*"] or
    equals it byte for byte. So a string that is not empty gives [false]
    when the request has no origin. The store is not touched. *)
Theorem matchOrigin_string s reqOrigin req σ :
  exists b,
    matchOrigin (Some (OString s)) reqOrigin req σ = (Normal (Fulfilled b), σ) /\
    (b = true <->
       s = "" \/ exists o, reqOrigin = Some o /\ o <> "" /\ (s = "*" \/ s = o)).
Proof.
  unfold matchOrigin. simpl.
  destruct (String.eqb_spec s "") as [->|Hs]; simpl.
  { exists true. split; [done|]. split; [by left|done]. }
  destruct reqOrigin as [o|]; simpl.
  - destruct (String.eqb_spec o "") as [->|Ho]; simpl.
    + exists false. split; [done|]. split; [done|].
      intros [?|(o & [= <-] & ? & _)]; done.
    + exists ((s =? "*") || (s =? o)). split; [done|].
      rewrite orb_true_iff, !String.eqb_eq. split.
      * intros H. right. by exists o.
      * intros [?|(o' & [= <-] & _ & H)]; done.
  - exists false. split; [done|]. split; [done|].
    intros [?|(o & ? & _)]; done.
Qed.

(** ** C5: the wildcard and the absent policy *)

(** C5. With no origin policy or the wildcard, a request with a non-empty
    origin is allowed, not denied. On a response whose head has not been
    generated the handler sets Access-Control-Allow-Origin (to the
    wildcard), and in a call the platform accepts, with a status code [end]
    accepts, its promise is fulfilled. *)
Theorem wildcard_allows options req res σ o :
  origin options = None \/ origin options = Some (OString "*") ->
  headers req !! "origin" = Some o -> o <> "" ->
  allowed options req σ /\
  (denied options req σ -> False) /\
  (ready options req res -> validStatus options = true ->
     exists handled, outcome (crosscors options req res σ) = Fulfilled handled) /\
  (headersSent res = false ->
     getHeader "Access-Control-Allow-Origin" (response (crosscors options req res σ))
     = Some "*").
Proof.
  intros Hpol Ho Hne.
  assert (policy options = OString "*") as Hp
    by (unfold policy; destruct Hpol as [-> | ->]; done).
  apply String.eqb_neq in Hne.
  assert (matchOrigin (Some (policy options)) (headers req !! "origin") req σ
          = (Normal (Fulfilled true), σ)) as Hm.
  { rewrite Hp, Ho. unfold matchOrigin. simpl. by rewrite Hne. }
  assert (allowed options req σ) as Hal by (by exists σ).
  split; [done|]. split; [intros [σ' Hd]; congruence|]. split.
  - intros Hready Hstatus.
    destruct (run_ready options req res σ Hal Hready) as (_ & Hrun). revert Hrun.
    destruct ((reqMethod req =? "OPTIONS")
              && negb (default false (preflightContinue options)));
      intros [_ ->]; [|by eauto].
    destruct (answer_valid (default 204%Z (optionsSuccessStatus options))
                (corsHeaders options req res) Hstatus) as (-> & _). by eauto.
  - intros Hsent. rewrite allowed_getHeader_written by done.
    pose proof (written_origin options req res) as Hw. cbv zeta in Hw.
    rewrite Ho, Hp, Hsent in Hw. simpl in Hw. rewrite Hne in Hw. simpl in Hw.
    by destruct Hw as [-> _].
Qed.

Lemma wildcard_allows_witness :
  allowed noOptions (request (Some "OPTIONS") "https://a.test") ∅ /\
  (exists handled,
     outcome (crosscors noOptions (request (Some "OPTIONS") "https://a.test") fresh ∅)
     = Fulfilled handled) /\
  getHeader "Access-Control-Allow-Origin"
    (response (crosscors noOptions (request (Some "OPTIONS") "https://a.test") fresh ∅))
  = Some "*".
Proof.
  destruct (wildcard_allows noOptions (request (Some "OPTIONS") "https://a.test")
              fresh ∅ "https://a.test") as (Hal & _ & Hful & Hset).
  - left. reflexivity.
  - reflexivity.
  - discriminate.
  - split; [exact Hal|]. split.
    + apply Hful; [repeat split|reflexivity].
    + apply Hset. reflexivity.
Defined.

(** ** C6: Access-Control-Allow-Origin and Vary *)

(** C6. On allow, with a request origin that is present (defined and not
    empty, which is what the handler tests) and a response whose head has
    not been generated, Access-Control-Allow-Origin is ["*"] when the policy
    is the wildcard and the origin of the request otherwise (an origin of
    accepted characters, as the parser delivers it), and Vary is [Origin].
    When the request carries no origin (none, or an empty one) the handler
    sets neither header: each is as the response had it, absent on a fresh
    response. *)
Theorem allow_origin_and_vary options req res σ :
  allowed options req σ ->
  let res' := response (crosscors options req res σ) in
  (forall o, headers req !! "origin" = Some o -> o <> "" ->
     headersSent res = false ->
     (policy options = OString "*" ->
        getHeader "Access-Control-Allow-Origin" res' = Some "*" /\
        getHeader "Vary" res' = Some "Origin") /\
     (policy options <> OString "*" -> validHeaderValue o = true ->
        getHeader "Access-Control-Allow-Origin" res' = Some o /\
        getHeader "Vary" res' = Some "Origin")) /\
  (headers req !! "origin" = None \/ headers req !! "origin" = Some "" ->
     getHeader "Access-Control-Allow-Origin" res'
     = getHeader "Access-Control-Allow-Origin" res /\
     getHeader "Vary" res' = getHeader "Vary" res).
Proof.
  intros Hal res'. subst res'.
  rewrite !allowed_getHeader_written by done.
  pose proof (written_origin options req res) as Hw. cbv zeta in Hw.
  split.
  - intros o Ho Hne Hsent. rewrite Ho, Hsent in Hw. simpl in Hw.
    apply String.eqb_neq in Hne. rewrite Hne in Hw. simpl in Hw.
    split.
    + intros Hp. rewrite Hp in Hw. exact Hw.
    + intros Hp Hvalid.
      assert (isStar (policy options) = false) as Hstar.
      { destruct (policy options) as [s| | |]; simpl; try done.
        destruct (String.eqb_spec s "*") as [->|]; done. }
      rewrite Hstar, Hvalid in Hw. exact Hw.
  - intros Hno. apply truthy_false in Hno. rewrite Hno in Hw. exact Hw.
Qed.

Lemma allow_origin_and_vary_witness :
  let res' := response (crosscors (withOrigin (ORegExp bTest))
                          (request (Some "GET") "https://x.b.test") fresh ∅) in
  getHeader "Access-Control-Allow-Origin" res' = Some "https://x.b.test" /\
  getHeader "Vary" res' = Some "Origin".
Proof.
  destruct (allow_origin_and_vary (withOrigin (ORegExp bTest))
              (request (Some "GET") "https://x.b.test") fresh ∅) as [Hset _].
  - exists ∅. reflexivity.
  - destruct (Hset "https://x.b.test") as (_ & Hecho).
    + reflexivity.
    + discriminate.
    + reflexivity.
    + apply Hecho; [discriminate | reflexivity].
Defined.

(** ** C7: preflight requests *)

(** C7. For an allowed request whose method (an ASCII text) in upper case is
    OPTIONS, in a call the platform accepts: when [preflightContinue] is
    false (or left out) and [optionsSuccessStatus] (204 when left out) is a
    status code from 100 to 999, the handler sets the status code to it,
    ends the response without adding to the body and resolves to [true];
    when [preflightContinue] is true, it leaves status code, body and ended
    state as they were, with the headers set, and resolves to [false]. *)
Theorem preflight_decision options req res σ :
  allowed options req σ -> reqMethod req = "OPTIONS" ->
  asciiMethod req = true -> ready options req res ->
  let run := crosscors options req res σ in
  (preflightContinue options = None \/ preflightContinue options = Some false ->
   validStatus options = true ->
     statusCode (response run) = default 204%Z (optionsSuccessStatus options) /\
     writableEnded (response run) = true /\
     body (response run) = body res /\
     outcome run = Fulfilled true) /\
  (preflightContinue options = Some true ->
     response run = corsHeaders options req res /\
     statusCode (response run) = statusCode res /\
     writableEnded (response run) = writableEnded res /\
     body (response run) = body res /\
     outcome run = Fulfilled false).
Proof.
  intros Hal Hopt _ Hready run. subst run.
  destruct (run_ready options req res σ Hal Hready) as (_ & Hrun).
  destruct (corsHeaders_fields options req res) as (Hst & Hbody & Hend).
  rewrite Hopt in Hrun. split.
  - intros Hpc Hstatus.
    assert (default false (preflightContinue options) = false) as Hoff
      by (destruct Hpc as [-> | ->]; done).
    rewrite Hoff in Hrun. simpl in Hrun. destruct Hrun as [-> ->].
    destruct (answer_valid (default 204%Z (optionsSuccessStatus options))
                (corsHeaders options req res) Hstatus) as (-> & -> & ->).
    by rewrite answer_body.
  - intros Hpc. rewrite Hpc in Hrun. simpl in Hrun. destruct Hrun as [-> ->]. done.
Qed.

Lemma preflight_decision_witness :
  let run := crosscors (withOrigin (OString "https://a.test"))
               (request (Some "options") "https://a.test") fresh ∅ in
  statusCode (response run) = 204%Z /\
  writableEnded (response run) = true /\
  body (response run) = "" /\
  outcome run = Fulfilled true.
Proof.
  destruct (preflight_decision (withOrigin (OString "https://a.test"))
              (request (Some "options") "https://a.test") fresh ∅) as [Hend _].
  - exists ∅. reflexivity.
  - reflexivity.
  - reflexivity.
  - repeat split.
  - apply Hend; [left; reflexivity | reflexivity].
Defined.

(** ** C8: Access-Control-Allow-Headers *)

(** C8. On allow, in a call the platform accepts,
    Access-Control-Allow-Headers is the configured [allowedHeaders] joined
    by commas when that option is set; otherwise the value of
    Access-Control-Request-Headers of the request, as it is, when the
    request has that header (with a value that is not empty); otherwise the
    handler does not set it: it is as the response had it, absent on a
    fresh response. *)
Theorem allow_headers options req res σ :
  allowed options req σ -> ready options req res ->
  let res' := response (crosscors options req res σ) in
  let requested := headers req !! "access-control-request-headers" in
  (forall hs, allowedHeaders options = Some hs ->
     getHeader "Access-Control-Allow-Headers" res' = Some (join "," hs)) /\
  (allowedHeaders options = None ->
     forall v, requested = Some v -> v <> "" ->
     getHeader "Access-Control-Allow-Headers" res' = Some v) /\
  (allowedHeaders options = None ->
     requested = None \/ requested = Some "" ->
     getHeader "Access-Control-Allow-Headers" res'
     = getHeader "Access-Control-Allow-Headers" res).
Proof.
  intros Hal Hready res' requested. subst res' requested.
  rewrite allowed_getHeader, corsHeaders_allow_headers by done.
  split; [|split].
  - by intros hs ->.
  - intros -> v Hv Hne. rewrite Hv. simpl.
    apply String.eqb_neq in Hne. by rewrite Hne.
  - intros -> Hno. apply truthy_false in Hno. by rewrite Hno.
Qed.

Lemma allow_headers_witness :
  getHeader "Access-Control-Allow-Headers"
    (response (crosscors noOptions
       (mkRequest (Some "OPTIONS")
          {[ "origin" := "https://a.test";
             "access-control-request-headers" := "X-Foo,X-Bar" ]})
       fresh ∅))
  = Some "X-Foo,X-Bar".
Proof.
  destruct (allow_headers noOptions
              (mkRequest (Some "OPTIONS")
                 {[ "origin" := "https://a.test";
                    "access-control-request-headers" := "X-Foo,X-Bar" ]})
              fresh ∅) as (_ & Hecho & _).
  - exists ∅. reflexivity.
  - repeat split.
  - apply (Hecho eq_refl "X-Foo,X-Bar"); [reflexivity | discriminate].
Defined.

(** ** C10: a request without a method *)

(** C10. For an allowed request that has no method, in a call the platform
    accepts, the method the handler compares is the empty string, so the
    request is no preflight: the handler sets the headers
    (Access-Control-Allow-Methods among them), leaves status code, body and
    ended state as they were and resolves to [false]; its promise does not
    reject. *)
Theorem request_without_method options req res σ :
  allowed options req σ -> method req = None -> ready options req res ->
  let run := crosscors options req res σ in
  reqMethod req = "" /\
  outcome run = Fulfilled false /\
  response run = corsHeaders options req res /\
  getHeader "Access-Control-Allow-Methods" (response run)
  = Some (join "," (default ["GET"; "HEAD"; "PUT"; "PATCH"; "POST"; "DELETE"]
                      (methods options))) /\
  statusCode (response run) = statusCode res /\
  body (response run) = body res /\
  writableEnded (response run) = writableEnded res.
Proof.
  intros Hal Hnone Hready run. subst run.
  assert (reqMethod req = "") as Hrm by (unfold reqMethod; by rewrite Hnone).
  destruct (run_ready options req res σ Hal Hready) as (_ & Hrun).
  destruct (corsHeaders_fields options req res) as (Hst & Hbody & Hend).
  rewrite Hrm in Hrun. simpl in Hrun. destruct Hrun as [-> ->].
  rewrite corsHeaders_allow_methods. done.
Qed.

Lemma request_without_method_witness :
  let run := crosscors noOptions
               (mkRequest None {[ "origin" := "https://a.test" ]}) fresh ∅ in
  outcome run = Fulfilled false /\
  getHeader "Access-Control-Allow-Methods" (response run)
  = Some "GET,HEAD,PUT,PATCH,POST,DELETE" /\
  statusCode (response run) = 200%Z /\
  writableEnded (response run) = false.
Proof.
  destruct (request_without_method noOptions
              (mkRequest None {[ "origin" := "https://a.test" ]}) fresh ∅)
    as (_ & Hout & _ & Hmeth & Hst & _ & Hend).
  - exists ∅. reflexivity.
  - reflexivity.
  - repeat split.
  - split; [exact Hout|]. split; [exact Hmeth|]. split; [exact Hst | exact Hend].
Defined.

(** ** C9: calling the handler twice *)

Lemma some_stateless o l σ :
  statefulIds l = [] -> some o l σ = ((some o l ∅).1, σ).
Proof.
  induction l as [|x l IH]; intros Hl; simpl; [done|].
  destruct x as [s|r]; simpl in *.
  - destruct (s =? o); [done|]. by apply IH.
  - destruct (RegExpObject.stateful r) eqn:Hst; [done|].
    rewrite (test_stateless r o σ Hst).
    destruct (RegExpObject.test r o ∅) as [b σ0] eqn:Ht; simpl.
    pose proof (test_store_stateless r o ∅ Hst) as Hσ0.
    rewrite Ht in Hσ0; simpl in Hσ0; subst σ0.
    destruct b; [done|]. by apply IH.
Qed.

(** A stateless policy is matched without reading or writing the store. *)
Lemma matchOrigin_stateless p reqOrigin req σ :
  stateless p ->
  matchOrigin (Some p) reqOrigin req σ
  = ((matchOrigin (Some p) reqOrigin req ∅).1, σ).
Proof.
  intros Hp. unfold matchOrigin.
  destruct (negb (ruleTruthy (Some p))); [done|].
  destruct (negb (truthy reqOrigin)); [done|].
  destruct p as [s|r|l|f], reqOrigin as [o|]; simpl in *; try done.
  - rewrite (test_stateless r o σ Hp). by destruct (RegExpObject.test r o ∅).
  - rewrite (some_stateless o l σ Hp). by destruct (some o l ∅).
Qed.

(** C9, as the claim states it, fails: a pattern with the [g] flag keeps the
    index its last match ended at. The same preflight request, on a fresh
    response each time, is answered by the first call and denied by the
    second. *)
Lemma global_pattern_alternates :
  let options := withOrigin (ORegExp exampleGlobal) in
  let req := request (Some "OPTIONS") "https://example.com" in
  let first := crosscors options req fresh ∅ in
  let second := crosscors options req fresh (store first) in
  notDynamic (policy options) /\
  (outcome first = Fulfilled true /\
   getHeader "Access-Control-Allow-Origin" (response first)
   = Some "https://example.com" /\
   statusCode (response first) = 204%Z /\
   writableEnded (response first) = true) /\
  (outcome second = Fulfilled false /\
   getHeader "Access-Control-Allow-Origin" (response second) = None /\
   statusCode (response second) = 200%Z /\
   writableEnded (response second) = false).
Proof. vm_compute. repeat split. Qed.

(** C9, amended. For a configuration whose origin policy is no function and
    has no pattern with the [g] or the [y] flag, the handler keeps no state
    between calls: a second call, made after the first on an equal request
    and an equal response, settles in the same way, leaves the same headers,
    status code and ended state, and writes the same to the console; the
    store of the patterns' [lastIndex] is never written. *)
Theorem decide_twice options req res σ :
  stateless (policy options) ->
  let first := crosscors options req res σ in
  let second := crosscors options req res (store first) in
  outcome second = outcome first /\
  response second = response first /\
  console second = console first /\
  store first = σ /\ store second = σ.
Proof.
  intros Hp first second.
  assert (forall τ, crosscors options req res τ
                    = mkRun (outcome (crosscors options req res ∅))
                            (response (crosscors options req res ∅))
                            τ
                            (console (crosscors options req res ∅))) as Hrun.
  { intros τ. unfold crosscors, handleCors. fold (policy options). cbv zeta.
    rewrite (matchOrigin_stateless (policy options) _ req τ Hp).
    destruct (matchOrigin (Some (policy options)) (headers req !! "origin") req ∅)
      as [[[[]| |]|] σ0]; simpl; try done.
    destruct (setCorsHeaders _ _ _ _ _ _ _ _) as [[[]|e] r]; [|done].
    destruct (reqMethod req =? "OPTIONS"); [|done].
    destruct (default false (preflightContinue options)); [done|].
    by destruct ((setStatusCode _ ;; end_) r) as [[[]|e] r']. }
  subst first second. rewrite (Hrun (store _)), (Hrun σ). done.
Qed.

Lemma decide_twice_witness :
  let options := withOrigin (OArray [EString "https://a.test"; ERegExp bTest]) in
  let req := request (Some "OPTIONS") "https://x.b.test" in
  let first := crosscors options req fresh ∅ in
  let second := crosscors options req fresh (store first) in
  outcome second = outcome first /\
  response second = response first /\
  console second = console first /\
  store first = ∅ /\ store second = ∅.
Proof.
  apply (decide_twice
           (withOrigin (OArray [EString "https://a.test"; ERegExp bTest]))
           (request (Some "OPTIONS") "https://x.b.test") fresh ∅).
  reflexivity.
Defined.

(** * Further properties of the handler *)

(** ** Every run, by the way the matching step completes *)

Lemma allowed_or_not options req σ :
  allowed options req σ \/ ~ allowed options req σ.
Proof.
  unfold allowed.
  destruct (matchOrigin (Some (policy options)) (headers req !! "origin") req σ)
    as [[[[]| |]|] σ']; [by eauto|right; by intros [? ?]..].
Qed.

(** A request that is not allowed leaves the response as it was, and the
    handler does not resolve to [true]. *)
Lemma run_not_allowed options req res σ :
  ~ allowed options req σ ->
  response (crosscors options req res σ) = res /\
  outcome (crosscors options req res σ) <> Fulfilled true /\
  (console (crosscors options req res σ) = [] \/ denied options req σ).
Proof.
  intros Hno.
  destruct (matchOrigin (Some (policy options)) (headers req !! "origin") req σ)
    as [c σ'] eqn:Hm.
  destruct c as [[[]| |]|].
  - destruct Hno. by exists σ'.
  - destruct (run_denied options req res σ σ' Hm) as (-> & -> & _).
    split; [done|]. split; [done|]. right. by exists σ'.
  - rewrite (run_failed options req res σ σ' e) by (by right). simpl. auto.
  - rewrite (run_pending options req res σ σ' Hm). simpl. auto.
  - rewrite (run_failed options req res σ σ' e) by (by left). simpl. auto.
Qed.

(** An allowed request: what the run leaves apart from the headers. *)
Lemma run_allowed_fields options req res σ :
  allowed options req σ ->
  let run := crosscors options req res σ in
  body (response run) = body res /\
  (outcome run = Fulfilled true ->
     reqMethod req = "OPTIONS" /\
     default false (preflightContinue options) = false /\
     writableEnded (response run) = true /\
     (validStatus options = true ->
        statusCode (response run) = default 204%Z (optionsSuccessStatus options))) /\
  (outcome run = Fulfilled false \/ outcome run = Pending ->
     statusCode (response run) = statusCode res /\
     writableEnded (response run) = writableEnded res) /\
  (forall e, outcome run = Rejected e ->
     writableEnded (response run) = writableEnded res).
Proof.
  intros [σ' Hm]. cbv zeta.
  destruct (run_allowed options req res σ σ' Hm) as (_ & Hthrow & Hall).
  destruct (setHeaders_fields (written (headerWrites options req) res) res)
    as (Hst & Hbody & Hend & _).
  destruct (decide (written (headerWrites options req) res
                    = headerWrites options req)) as [Heq|Hne].
  - destruct (Hall Heq) as (_ & Hrun). revert Hrun.
    destruct (String.eqb_spec (reqMethod req) "OPTIONS") as [Hopt|Hopt];
      destruct (default false (preflightContinue options)) eqn:Hpc;
      cbn [andb negb]; intros [-> ->]; try (repeat split; (done || by intros [])).
    set (answered := (setStatusCode _ ;; end_) _).
    pose proof (answer_body (default 204%Z (optionsSuccessStatus options))
                  (setHeaders (written (headerWrites options req) res) res)) as Hab.
    pose proof (answer_Normal (default 204%Z (optionsSuccessStatus options))
                  (setHeaders (written (headerWrites options req) res) res)) as Han.
    pose proof (answer_valid (default 204%Z (optionsSuccessStatus options))
                  (setHeaders (written (headerWrites options req) res) res)) as Hav.
    pose proof (answer_Throw (default 204%Z (optionsSuccessStatus options))
                  (setHeaders (written (headerWrites options req) res) res)) as Hat.
    fold answered in Hab, Han, Hav, Hat.
    split; [by rewrite Hab|].
    destruct answered.1 as [[]|e].
    + split; [|split; [by intros []|done]].
      intros _. repeat (split; [done|]). split; [by apply Han|].
      intros Hstatus. by destruct (Hav Hstatus) as (_ & -> & _).
    + split; [done|]. split; [by intros []|].
      intros e' _. destruct (Hat e eq_refl) as [-> _]. done.
  - destruct (Hthrow Hne) as ((e & ->) & -> & _).
    split; [done|]. split; [done|]. split; [by intros []|]. done.
Qed.

(** ** The handler's answer and the state of the response *)

(** X1. In a call the platform accepts, with a status code [end] accepts
    and a method that is ASCII, the handler resolves to [true] exactly when
    it answered a preflight itself: the request is allowed, its method in
    upper case is OPTIONS and [preflightContinue] is off. *)
Theorem handled_iff_preflight_answered options req res σ :
  ready options req res -> validStatus options = true ->
  asciiMethod req = true ->
  outcome (crosscors options req res σ) = Fulfilled true <->
  allowed options req σ /\ reqMethod req = "OPTIONS" /\
  default false (preflightContinue options) = false.
Proof.
  intros Hready Hstatus _. split.
  - intros Hout.
    assert (allowed options req σ) as Hal.
    { destruct (allowed_or_not options req σ) as [Hal|Hno]; [done|].
      by destruct (run_not_allowed options req res σ Hno) as (_ & ? & _). }
    split; [done|].
    destruct (run_allowed_fields options req res σ Hal) as (_ & Htrue & _).
    by destruct (Htrue Hout) as (? & ? & _).
  - intros (Hal & Hopt & Hpc).
    destruct (run_ready options req res σ Hal Hready) as (_ & Hrun).
    rewrite Hopt, Hpc in Hrun. simpl in Hrun. destruct Hrun as [_ ->].
    by destruct (answer_valid (default 204%Z (optionsSuccessStatus options))
                   (corsHeaders options req res) Hstatus) as (-> & _).
Qed.

Lemma handled_iff_preflight_answered_witness :
  outcome (crosscors noOptions (request (Some "options") "https://a.test") fresh ∅)
  = Fulfilled true <->
  allowed noOptions (request (Some "options") "https://a.test") ∅ /\
  reqMethod (request (Some "options") "https://a.test") = "OPTIONS" /\
  default false (preflightContinue noOptions) = false.
Proof.
  apply (handled_iff_preflight_answered noOptions
           (request (Some "options") "https://a.test") fresh ∅).
  - repeat split.
  - reflexivity.
  - reflexivity.
Defined.

(** X2. What a run does to the response apart from its headers. The body is
    never written. When the handler resolves to [true] the response is
    ended, with the configured status code when that is one from 100 to
    999. When it resolves to [false], or its promise stays pending, status
    code and ended state are as they were. When its promise rejects the
    response has not been ended by the run. *)
Theorem status_and_end options req res σ :
  let run := crosscors options req res σ in
  body (response run) = body res /\
  (outcome run = Fulfilled true ->
     writableEnded (response run) = true /\
     (validStatus options = true ->
        statusCode (response run) = default 204%Z (optionsSuccessStatus options))) /\
  (outcome run = Fulfilled false \/ outcome run = Pending ->
     statusCode (response run) = statusCode res /\
     writableEnded (response run) = writableEnded res) /\
  (forall e, outcome run = Rejected e ->
     writableEnded (response run) = writableEnded res).
Proof.
  intros run. subst run.
  destruct (allowed_or_not options req σ) as [Hal|Hno].
  - destruct (run_allowed_fields options req res σ Hal)
      as (Hbody & Htrue & Hfalse & Hrej).
    split; [done|]. split; [|done].
    intros Hout. by destruct (Htrue Hout) as (_ & _ & ? & ?).
  - destruct (run_not_allowed options req res σ Hno) as (-> & Hout & _).
    done.
Qed.

(** ** Headers the handler does not own *)

(** X3. A header that is none of the seven CORS headers is never touched:
    after any run it has the value the response had for it. *)
Theorem foreign_header_untouched options req res σ name :
  foreign name ->
  getHeader name (response (crosscors options req res σ)) = getHeader name res.
Proof.
  intros Hf.
  destruct (allowed_or_not options req σ) as [Hal|Hno].
  - rewrite allowed_getHeader_written by done.
    apply getHeader_setHeaders_None, written_Forall.
    by apply headerWrites_foreign.
  - by destruct (run_not_allowed options req res σ Hno) as (-> & _).
Qed.

Lemma foreign_header_untouched_witness :
  getHeader "Content-Type"
    (response (crosscors noOptions (request (Some "OPTIONS") "https://a.test")
                 (withHeader "content-type" "application/json" fresh) ∅))
  = getHeader "Content-Type" (withHeader "content-type" "application/json" fresh).
Proof.
  apply (foreign_header_untouched noOptions
           (request (Some "OPTIONS") "https://a.test")
           (withHeader "content-type" "application/json" fresh) ∅ "Content-Type").
  unfold foreign, corsHeaderNames. repeat constructor; discriminate.
Defined.

(** ** A request without an origin *)

(** X4. Unless the policy is the empty string, a request without an Origin
    header (or with an empty one) is denied whatever the policy: the handler
    resolves to [false], hands the response back as it was, writes nothing
    to the console and leaves the patterns alone; an origin function is not
    called, so it cannot make the handler fail, and a preflight is not
    answered. *)
Theorem no_origin_is_denied options req res σ :
  policy options <> OString "" -> noOrigin req ->
  crosscors options req res σ = mkRun (Fulfilled false) res σ [].
Proof.
  intros Hp Hno. apply truthy_false in Hno.
  unfold crosscors, handleCors. fold (policy options). cbv zeta.
  assert (matchOrigin (Some (policy options)) (headers req !! "origin") req σ
          = (Normal (Fulfilled false), σ)) as ->.
  { unfold matchOrigin. rewrite Hno.
    assert (ruleTruthy (Some (policy options)) = true) as ->; [|done].
    destruct (policy options) as [s| | |]; simpl; try done.
    destruct (String.eqb_spec s "") as [->|]; done. }
  rewrite Hno, andb_false_r. done.
Qed.

Lemma no_origin_is_denied_witness :
  crosscors (mkOptions (Some (OFunction throwing)) None None None None None
               None None (Some true))
    (anonymous (Some "OPTIONS")) fresh ∅
  = mkRun (Fulfilled false) fresh ∅ [].
Proof.
  apply (no_origin_is_denied
           (mkOptions (Some (OFunction throwing)) None None None None None
              None None (Some true))
           (anonymous (Some "OPTIONS")) fresh ∅).
  - discriminate.
  - left. reflexivity.
Defined.

(** ** When the matching step fails *)

(** X5. [matchOrigin] resolves to a boolean unless the policy is a function:
    when it completes in any other way (it throws, or its promise rejects or
    never settles), the policy is a function, the request origin is present
    and not empty, and [matchOrigin] completes as the call of the function
    on that origin did: it throws what the call threw, or returns the
    promise the call returned. The patterns are not touched then. *)
Theorem matching_fails_only_through_function p reqOrigin req σ c σ' :
  matchOrigin (Some p) reqOrigin req σ = (c, σ') ->
  (forall b, c <> Normal (Fulfilled b)) ->
  exists f o,
    p = OFunction f /\ reqOrigin = Some o /\ o <> "" /\ σ' = σ /\
    ((exists e, f o req = Throws e /\ c = Throw e) \/
     (exists q, f o req = ReturnsPromise q /\ c = Normal q)).
Proof.
  intros Hm Hc. revert Hm. unfold matchOrigin.
  destruct (negb (ruleTruthy (Some p))); [intros [= <- _]; by destruct (Hc true)|].
  destruct reqOrigin as [o|]; simpl; [|intros [= <- _]; by destruct (Hc false)].
  destruct (String.eqb_spec o "") as [->|Hne]; simpl;
    [intros [= <- _]; by destruct (Hc false)|].
  destruct p as [s|r|l|f].
  - intros [= <- _]. by edestruct Hc.
  - destruct (RegExpObject.test r o σ). intros [= <- _]. by edestruct Hc.
  - destruct (some o l σ). intros [= <- _]. by edestruct Hc.
  - intros Hm. exists f, o. repeat (split; [done|]).
    destruct (f o req) as [b|q|e]; injection Hm as <- <-.
    + by edestruct Hc.
    + split; [done|]. right. eauto.
    + split; [done|]. left. eauto.
Qed.

Lemma matching_fails_only_through_function_witness :
  exists f o,
    OFunction rejecting = OFunction f /\ Some "https://a.test" = Some o /\
    o <> "" /\ (∅ : Store) = ∅ /\
    ((exists e, f o (request (Some "GET") "https://a.test") = Throws e /\
                @Normal (Promise bool) (Rejected "lookup failed") = Throw e) \/
     (exists q, f o (request (Some "GET") "https://a.test") = ReturnsPromise q /\
                Normal (Rejected "lookup failed") = Normal q)).
Proof.
  apply (matching_fails_only_through_function (OFunction rejecting)
           (Some "https://a.test") (request (Some "GET") "https://a.test") ∅
           (Normal (Rejected "lookup failed")) ∅).
  - reflexivity.
  - intros b. discriminate.
Defined.

(** ** The console *)

(** X6. What a run writes to the console. With [log] off (the default)
    nothing is written, and nothing is written for a request without an
    origin. With [log] on and an origin that is not empty, a denial writes
    one warning that names the blocked origin, and an allowed request, in a
    call the platform accepts, one information line that names the allowed
    origin. *)
Theorem console_lines options req res σ :
  let run := crosscors options req res σ in
  (log options = None \/ log options = Some false -> console run = []) /\
  (noOrigin req -> console run = []) /\
  (forall o, log options = Some true -> headers req !! "origin" = Some o -> o <> "" ->
     (denied options req σ ->
        console run = [(Warn, "[crosscors] Blocked: " +:+ o)]) /\
     (allowed options req σ -> ready options req res ->
        console run = [(Info, "[crosscors] Allowed: " +:+ o)])).
Proof.
  intros run. subst run.
  assert (forall σ',
    matchOrigin (Some (policy options)) (headers req !! "origin") req σ
    = (Normal (Fulfilled false), σ') ->
    console (crosscors options req res σ)
    = if default false (log options) && truthy (headers req !! "origin")
      then [(Warn, "[crosscors] Blocked: " +:+ default "" (headers req !! "origin"))]
      else []) as Hden.
  { intros σ' Hm. unfold crosscors, handleCors. fold (policy options). cbv zeta.
    by rewrite Hm. }
  assert (default false (log options) && truthy (headers req !! "origin") = false ->
          console (crosscors options req res σ) = []) as Hquiet.
  { intros Hoff.
    destruct (allowed_or_not options req σ) as [[σ' Hm]|Hno].
    - destruct (run_allowed options req res σ σ' Hm) as (_ & Hthrow & Hall).
      destruct (decide (written (headerWrites options req) res
                        = headerWrites options req)) as [Heq|Hne].
      + destruct (Hall Heq) as (-> & _). by rewrite Hoff.
      + by destruct (Hthrow Hne) as (_ & _ & ->).
    - destruct (run_not_allowed options req res σ Hno) as (_ & _ & [?|[σ' Hd]]);
        [done|]. by rewrite (Hden σ' Hd), Hoff. }
  split; [|split].
  - intros Hlog. apply Hquiet. by destruct Hlog as [-> | ->].
  - intros Hno. apply truthy_false in Hno. apply Hquiet.
    by rewrite Hno, andb_false_r.
  - intros o Hlog Ho Hne. apply String.eqb_neq in Hne. split.
    + intros [σ' Hd]. rewrite (Hden σ' Hd), Hlog, Ho. simpl. by rewrite Hne.
    + intros Hal Hready.
      destruct (run_ready options req res σ Hal Hready) as (-> & _).
      rewrite Hlog, Ho. simpl. by rewrite Hne.
Qed.

(** ** An origin function *)

(** X7. With a function as policy and a request origin that is not empty,
    the answer of the function decides, whether it is returned directly or
    through a promise: [true] allows and [false] denies. While the promise
    of the function is pending so is the one of the handler, and the
    response has not been touched. *)
Theorem function_policy_decides options f req res σ o :
  policy options = OFunction f ->
  headers req !! "origin" = Some o -> o <> "" ->
  (forall b, f o req = ReturnsBoolean b \/ f o req = ReturnsPromise (Fulfilled b) ->
     if b then allowed options req σ else denied options req σ) /\
  (f o req = ReturnsPromise Pending ->
     crosscors options req res σ = mkRun Pending res σ []).
Proof.
  intros Hp Ho Hne. apply String.eqb_neq in Hne.
  assert (matchOrigin (Some (policy options)) (headers req !! "origin") req σ
          = match f o req with
            | ReturnsBoolean b => (Normal (Fulfilled b), σ)
            | ReturnsPromise p => (Normal p, σ)
            | Throws e => (Throw e, σ)
            end) as Hm.
  { rewrite Hp, Ho. unfold matchOrigin. simpl. by rewrite Hne. }
  split.
  - intros b Hf.
    assert (matchOrigin (Some (policy options)) (headers req !! "origin") req σ
            = (Normal (Fulfilled b), σ)) as Hb
      by (rewrite Hm; destruct Hf as [-> | ->]; done).
    destruct b; by exists σ.
  - intros Hf. apply run_pending. by rewrite Hm, Hf.
Qed.

Lemma function_policy_decides_witness :
  allowed (withOrigin (OFunction (fun o _ => ReturnsPromise (Fulfilled (o =? "https://a.test")))))
    (request (Some "GET") "https://a.test") ∅.
Proof.
  destruct (function_policy_decides
              (withOrigin (OFunction (fun o _ => ReturnsPromise (Fulfilled (o =? "https://a.test")))))
              (fun o _ => ReturnsPromise (Fulfilled (o =? "https://a.test")))
              (request (Some "GET") "https://a.test") fresh ∅ "https://a.test")
    as [Hdec _].
  - reflexivity.
  - reflexivity.
  - discriminate.
  - apply (Hdec true). right. reflexivity.
Defined.

(** ** A pattern *)

Lemma scan_is_Some r s n i :
  re_sticky r = false ->
  is_Some (RegExpObject.scan r s n i) <->
  exists j, (i <= j < i + n)%nat /\ is_Some (re_matcher r s j).
Proof.
  intros Hst. revert i. induction n as [|n IH]; intros i; simpl.
  - split; [by intros [? ?]|]. intros (j & ? & _). lia.
  - destruct (re_matcher r s i) as [e|] eqn:Hi.
    + split; [|by eauto]. intros _. exists i. split; [lia|]. by rewrite Hi.
    + rewrite Hst, IH. split.
      * intros (j & ? & Hj). exists j. split; [lia|done].
      * intros (j & ? & Hj). exists j. split; [|done].
        destruct (decide (j = i)) as [->|]; [|lia].
        rewrite Hi in Hj. by destruct Hj.
Qed.

(** A pattern without [g] and [y] accepts a text exactly when its matcher
    succeeds at some index of it. *)
Lemma test_stateless_spec r s σ :
  RegExpObject.stateful r = false ->
  (RegExpObject.test r s σ).1 = true <->
  exists j, (j <= String.length s)%nat /\ is_Some (re_matcher r s j).
Proof.
  intros Hst. pose proof Hst as Hfl. unfold RegExpObject.stateful in Hfl.
  apply orb_false_iff in Hfl as [_ Hsticky].
  pose proof (scan_is_Some r s (S (String.length s)) 0 Hsticky) as Hscan.
  unfold RegExpObject.test, RegExpObject.exec. rewrite Hst. cbv zeta.
  replace (String.length s <? 0)%nat with false
    by (symmetry; apply Nat.ltb_ge; lia).
  rewrite Nat.sub_0_r.
  destruct (RegExpObject.scan r s (S (String.length s)) 0) as [e|];
    cbn [fst]; rewrite bool_decide_eq_true.
  - split; [|by eauto]. intros _. destruct Hscan as [(j & ? & ?) _]; [by eauto|].
    exists j. split; [lia|done].
  - split; [by intros [? ?]|]. intros (j & ? & Hj).
    apply Hscan. exists j. split; [lia|done].
Qed.

(** X8. A pattern policy without the [g] and [y] flags allows a request
    exactly when the pattern matches somewhere in its origin: at the start,
    in the middle or at the end, unless the pattern itself is anchored. The
    request is denied otherwise. *)
Theorem pattern_policy_allows options r req σ o :
  policy options = ORegExp r -> RegExpObject.stateful r = false ->
  headers req !! "origin" = Some o -> o <> "" ->
  (allowed options req σ <->
     exists j, (j <= String.length o)%nat /\ is_Some (re_matcher r o j)) /\
  (denied options req σ <->
     ~ exists j, (j <= String.length o)%nat /\ is_Some (re_matcher r o j)).
Proof.
  intros Hp Hst Ho Hne. apply String.eqb_neq in Hne.
  pose proof (test_stateless_spec r o σ Hst) as Hspec.
  assert (matchOrigin (Some (policy options)) (headers req !! "origin") req σ
          = (Normal (Fulfilled (RegExpObject.test r o σ).1),
             (RegExpObject.test r o σ).2)) as Hm.
  { rewrite Hp, Ho. unfold matchOrigin. simpl. rewrite Hne. simpl.
    by destruct (RegExpObject.test r o σ). }
  unfold allowed, denied. rewrite Hm, <- Hspec.
  destruct (RegExpObject.test r o σ).1; split; split; try done.
  - by eauto.
  - by intros [σ' [=]].
  - by intros [σ' [=]].
  - by eauto.
Qed.

Lemma pattern_policy_allows_witness :
  allowed (withOrigin (ORegExp (mkRegExp 4 (Patterns.literal "example.com") false false)))
    (request (Some "GET") "https://example.com.evil.net") ∅ <->
  exists j, (j <= String.length "https://example.com.evil.net")%nat /\
            is_Some (Patterns.literal "example.com" "https://example.com.evil.net" j).
Proof.
  apply (pattern_policy_allows
           (withOrigin (ORegExp (mkRegExp 4 (Patterns.literal "example.com") false false)))
           (mkRegExp 4 (Patterns.literal "example.com") false false)
           (request (Some "GET") "https://example.com.evil.net") ∅
           "https://example.com.evil.net").
  - reflexivity.
  - reflexivity.
  - reflexivity.
  - discriminate.
Defined.

(** A pattern without [y] whose search starts at index 0 accepts a text
    exactly when its matcher succeeds at some index of it. *)
Lemma test_from_start r s σ :
  re_sticky r = false ->
  (RegExpObject.stateful r = true -> RegExpObject.lastIndex r σ = 0%nat) ->
  (RegExpObject.test r s σ).1 = true <->
  exists j, (j <= String.length s)%nat /\ is_Some (re_matcher r s j).
Proof.
  intros Hsticky Hstart.
  pose proof (scan_is_Some r s (S (String.length s)) 0 Hsticky) as Hscan.
  unfold RegExpObject.test, RegExpObject.exec.
  replace (if RegExpObject.stateful r then RegExpObject.lastIndex r σ else 0%nat)
    with 0%nat by (destruct (RegExpObject.stateful r); [by rewrite Hstart|done]).
  cbv zeta.
  replace (String.length s <? 0)%nat with false
    by (symmetry; apply Nat.ltb_ge; lia).
  rewrite Nat.sub_0_r.
  destruct (RegExpObject.scan r s (S (String.length s)) 0) as [e|];
    cbn [fst]; rewrite bool_decide_eq_true.
  - split; [|by eauto]. intros _. destruct Hscan as [(j & ? & ?) _]; [by eauto|].
    exists j. split; [lia|done].
  - split; [by intros [? ?]|]. intros (j & ? & Hj).
    apply Hscan. exists j. split; [lia|done].
Qed.

(** A failed [test] leaves a pattern with [g] or [y] at index 0. *)
Lemma test_false_resets r s σ :
  RegExpObject.stateful r = true -> (RegExpObject.test r s σ).1 = false ->
  RegExpObject.lastIndex r (RegExpObject.test r s σ).2 = 0%nat.
Proof.
  intros Hst. unfold RegExpObject.test, RegExpObject.exec,
    RegExpObject.setLastIndex, RegExpObject.lastIndex.
  rewrite Hst. cbv zeta.
  destruct (_ <? _)%nat; [intros _; cbn [snd]; by rewrite lookup_insert_eq|].
  destruct (RegExpObject.scan _ _ _ _); cbn [fst snd].
  - rewrite bool_decide_eq_false. intros []. by eauto.
  - intros _. by rewrite lookup_insert_eq.
Qed.

(** X9. A pattern with the [g] flag (and without [y]) never denies an
    origin it matches twice in a row: the denial resets the pattern, and
    the next call for the same origin searches it from the start and
    allows. *)
Theorem denial_resets_pattern options r req res σ o :
  policy options = ORegExp r -> re_sticky r = false ->
  headers req !! "origin" = Some o -> o <> "" ->
  (exists j, (j <= String.length o)%nat /\ is_Some (re_matcher r o j)) ->
  denied options req σ ->
  allowed options req (store (crosscors options req res σ)).
Proof.
  intros Hp Hsticky Ho Hne Hmatch [σ1 Hd]. apply String.eqb_neq in Hne.
  assert (forall τ,
    matchOrigin (Some (policy options)) (headers req !! "origin") req τ
    = (Normal (Fulfilled (RegExpObject.test r o τ).1),
       (RegExpObject.test r o τ).2)) as Hm.
  { intros τ. rewrite Hp, Ho. unfold matchOrigin. simpl. rewrite Hne. simpl.
    by destruct (RegExpObject.test r o τ). }
  rewrite run_store. rewrite Hm in Hd. injection Hd as Hfalse _.
  rewrite (Hm σ). cbn [snd]. set (σ' := (RegExpObject.test r o σ).2).
  assert ((RegExpObject.test r o σ').1 = true) as Htrue.
  { apply test_from_start; [done| |done].
    intros Hst. by apply test_false_resets. }
  exists (RegExpObject.test r o σ').2. by rewrite (Hm σ'), Htrue.
Qed.

Lemma denial_resets_pattern_witness :
  allowed (withOrigin (ORegExp exampleGlobal))
    (request (Some "GET") "https://example.com")
    (store (crosscors (withOrigin (ORegExp exampleGlobal))
              (request (Some "GET") "https://example.com") fresh {[ 3 := 19 ]})).
Proof.
  apply (denial_resets_pattern (withOrigin (ORegExp exampleGlobal)) exampleGlobal
           (request (Some "GET") "https://example.com") fresh {[ 3 := 19 ]}
           "https://example.com").
  - reflexivity.
  - reflexivity.
  - reflexivity.
  - discriminate.
  - exists 8%nat. split; [vm_compute; lia | by eexists].
  - exists {[ 3 := 0 ]}. reflexivity.
Defined.

(** ** The store of the patterns *)




(** ** The other headers *)

(** X11. On allow, in a call the platform accepts,
    Access-Control-Allow-Credentials is the text [true] when
    [credentials] is on; when it is off or left out the handler does not set
    the header (it never writes [false]): the header is as the response had
    it. *)
Theorem allow_credentials options req res σ :
  allowed options req σ -> ready options req res ->
  let res' := response (crosscors options req res σ) in
  (credentials options = Some true ->
     getHeader "Access-Control-Allow-Credentials" res' = Some "true") /\
  (credentials options = None \/ credentials options = Some false ->
     getHeader "Access-Control-Allow-Credentials" res'
     = getHeader "Access-Control-Allow-Credentials" res).
Proof.
  intros Hal Hready res'. subst res'.
  rewrite allowed_getHeader, corsHeaders_allow_credentials by done.
  split; [by intros ->|]. by intros [-> | ->].
Qed.

Lemma allow_credentials_witness :
  getHeader "Access-Control-Allow-Credentials"
    (response (crosscors (mkOptions None None None None (Some true) None None None None)
                 (request (Some "GET") "https://a.test") fresh ∅))
  = Some "true".
Proof.
  destruct (allow_credentials
              (mkOptions None None None None (Some true) None None None None)
              (request (Some "GET") "https://a.test") fresh ∅) as [Hon _].
  - exists ∅. reflexivity.
  - repeat split.
  - apply Hon. reflexivity.
Defined.

(** X12. On allow, in a call the platform accepts (so with a [maxAge] below
    2^53 in magnitude), Access-Control-Max-Age is the configured [maxAge] in
    decimal whenever the option is given, a [maxAge] of 0 included (the
    option is compared with [undefined], not tested for truth); without the
    option the handler does not set the header. *)
Theorem max_age options req res σ :
  allowed options req σ -> ready options req res ->
  let res' := response (crosscors options req res σ) in
  (forall n, maxAge options = Some n ->
     getHeader "Access-Control-Max-Age" res' = Some (String_ n)) /\
  (maxAge options = Some 0%Z ->
     getHeader "Access-Control-Max-Age" res' = Some "0") /\
  (maxAge options = None ->
     getHeader "Access-Control-Max-Age" res'
     = getHeader "Access-Control-Max-Age" res).
Proof.
  intros Hal Hready res'. subst res'.
  rewrite allowed_getHeader, corsHeaders_max_age by done.
  split; [by intros n ->|]. split; by intros ->.
Qed.

Lemma max_age_witness :
  getHeader "Access-Control-Max-Age"
    (response (crosscors (mkOptions None None None None None (Some 0%Z) None None None)
                 (request (Some "OPTIONS") "https://a.test") fresh ∅))
  = Some "0".
Proof.
  destruct (max_age (mkOptions None None None None None (Some 0%Z) None None None)
              (request (Some "OPTIONS") "https://a.test") fresh ∅) as (_ & Hzero & _).
  - exists ∅. reflexivity.
  - repeat split.
  - apply Hzero. reflexivity.
Defined.

(** X13. On allow, in a call the platform accepts,
    Access-Control-Expose-Headers is the configured
    [exposedHeaders] joined by commas whenever the option is given; an empty
    list counts as given and sets the header to the empty text. Without the
    option the handler does not set the header. *)
Theorem expose_headers options req res σ :
  allowed options req σ -> ready options req res ->
  let res' := response (crosscors options req res σ) in
  (forall hs, exposedHeaders options = Some hs ->
     getHeader "Access-Control-Expose-Headers" res' = Some (join "," hs)) /\
  (exposedHeaders options = Some [] ->
     getHeader "Access-Control-Expose-Headers" res' = Some "") /\
  (exposedHeaders options = None ->
     getHeader "Access-Control-Expose-Headers" res'
     = getHeader "Access-Control-Expose-Headers" res).
Proof.
  intros Hal Hready res'. subst res'.
  rewrite allowed_getHeader, corsHeaders_expose_headers by done.
  split; [by intros hs ->|]. split; by intros ->.
Qed.

Lemma expose_headers_witness :
  getHeader "Access-Control-Expose-Headers"
    (response (crosscors
                 (mkOptions None None None (Some ["X-Total"; "X-Page"]) None None
                    None None None)
                 (request (Some "GET") "https://a.test") fresh ∅))
  = Some (join "," ["X-Total"; "X-Page"]).
Proof.
  destruct (expose_headers
              (mkOptions None None None (Some ["X-Total"; "X-Page"]) None None
                 None None None)
              (request (Some "GET") "https://a.test") fresh ∅) as (Hset & _).
  - exists ∅. reflexivity.
  - repeat split.
  - apply Hset. reflexivity.
Defined.

(** X14. In a call the platform accepts, every allowed request gets
    Access-Control-Allow-Methods, whatever
    its method (a preflight or not) and whether or not it has an origin: the
    configured methods joined by commas, in their order, and
    [GET,HEAD,PUT,PATCH,POST,DELETE] when none are configured. *)
Theorem allow_methods options req res σ :
  allowed options req σ -> ready options req res ->
  let res' := response (crosscors options req res σ) in
  (forall ms, methods options = Some ms ->
     getHeader "Access-Control-Allow-Methods" res' = Some (join "," ms)) /\
  (methods options = None ->
     getHeader "Access-Control-Allow-Methods" res'
     = Some "GET,HEAD,PUT,PATCH,POST,DELETE").
Proof.
  intros Hal Hready res'. subst res'.
  rewrite allowed_getHeader, corsHeaders_allow_methods by done.
  split; [by intros ms ->|]. by intros ->.
Qed.

Lemma allow_methods_witness :
  getHeader "Access-Control-Allow-Methods"
    (response (crosscors (mkOptions (Some (OString "")) (Some ["GET"; "POST"]) None
                            None None None None None None)
                 (anonymous (Some "GET")) fresh ∅))
  = Some (join "," ["GET"; "POST"]).
Proof.
  destruct (allow_methods
              (mkOptions (Some (OString "")) (Some ["GET"; "POST"]) None
                 None None None None None None)
              (anonymous (Some "GET")) fresh ∅) as (Hset & _).
  - exists ∅. reflexivity.
  - repeat split.
  - apply Hset. reflexivity.
Defined.

(** X15. Access-Control-Allow-Origin and Vary go together: on a response
    that had neither, after any run Access-Control-Allow-Origin is present
    exactly when Vary is [Origin], the wildcard policy included. *)
Theorem vary_with_allow_origin options req res σ :
  getHeader "Access-Control-Allow-Origin" res = None ->
  getHeader "Vary" res = None ->
  let res' := response (crosscors options req res σ) in
  is_Some (getHeader "Access-Control-Allow-Origin" res') <->
  getHeader "Vary" res' = Some "Origin".
Proof.
  intros Hacao Hvary res'. subst res'.
  destruct (allowed_or_not options req σ) as [Hal|Hno].
  - rewrite !allowed_getHeader_written by done.
    pose proof (written_origin options req res) as Hw. cbv zeta in Hw.
    destruct (_ && _); destruct Hw as [-> ->].
    + by eauto.
    + rewrite Hacao, Hvary. split; [by intros [? ?]|done].
  - destruct (run_not_allowed options req res σ Hno) as (-> & _).
    rewrite Hacao, Hvary. split; [by intros [? ?]|done].
Qed.

Lemma vary_with_allow_origin_witness :
  is_Some (getHeader "Access-Control-Allow-Origin"
             (response (crosscors noOptions (request (Some "GET") "https://a.test")
                          fresh ∅))) <->
  getHeader "Vary"
    (response (crosscors noOptions (request (Some "GET") "https://a.test") fresh ∅))
  = Some "Origin".
Proof.
  apply (vary_with_allow_origin noOptions (request (Some "GET") "https://a.test")
           fresh ∅); reflexivity.
Defined.

(** X16. The wildcard and credentials are not kept apart: with the wildcard
    policy (or none) and [credentials] on, a request with an origin gets,
    in a call the platform accepts, both Access-Control-Allow-Origin [*] and
    Access-Control-Allow-Credentials [true]. *)
Theorem wildcard_with_credentials options req res σ o :
  origin options = None \/ origin options = Some (OString "*") ->
  credentials options = Some true ->
  headers req !! "origin" = Some o -> o <> "" ->
  ready options req res ->
  let res' := response (crosscors options req res σ) in
  getHeader "Access-Control-Allow-Origin" res' = Some "*" /\
  getHeader "Access-Control-Allow-Credentials" res' = Some "true".
Proof.
  intros Hpol Hcred Ho Hne Hready res'. subst res'.
  assert (policy options = OString "*") as Hp
    by (unfold policy; destruct Hpol as [-> | ->]; done).
  apply String.eqb_neq in Hne.
  assert (allowed options req σ) as Hal.
  { exists σ. rewrite Hp, Ho. unfold matchOrigin. simpl. by rewrite Hne. }
  rewrite !allowed_getHeader, corsHeaders_allow_origin,
    corsHeaders_allow_credentials by done.
  rewrite Ho, Hp, Hcred. simpl. by rewrite Hne.
Qed.

Lemma wildcard_with_credentials_witness :
  let res' := response (crosscors
                          (mkOptions None None None None (Some true) None None None None)
                          (request (Some "GET") "https://a.test") fresh ∅) in
  getHeader "Access-Control-Allow-Origin" res' = Some "*" /\
  getHeader "Access-Control-Allow-Credentials" res' = Some "true".
Proof.
  apply (wildcard_with_credentials
           (mkOptions None None None None (Some true) None None None None)
           (request (Some "GET") "https://a.test") fresh ∅ "https://a.test").
  - left. reflexivity.
  - reflexivity.
  - reflexivity.
  - discriminate.
  - repeat split.
Defined.

(** ** Running the handler again on the same response *)

(** X17. Running the handler a second time on the response of a run that
    passed the request on changes nothing, when the policy keeps no state
    (no function, no pattern with [g] or [y]): the second run settles like
    the first and leaves the response of the first as it is, header by
    header. *)
Theorem second_pass_changes_nothing options req res σ :
  stateless (policy options) ->
  let first := crosscors options req res σ in
  let second := crosscors options req (response first) (store first) in
  outcome first = Fulfilled false ->
  outcome second = Fulfilled false /\
  response second = response first /\
  store second = store first.
Proof.
  intros Hp first second. subst first second.
  pose proof (matchOrigin_stateless (policy options) (headers req !! "origin") req)
    as Hm. specialize (fun τ => Hm τ Hp).
  destruct (matchOrigin (Some (policy options)) (headers req !! "origin") req ∅)
    as [c σ0]. simpl in Hm.
  destruct c as [[[]| |]|].
  - destruct (run_allowed options req res σ σ (Hm σ)) as (Hst & Hthrow & Hall).
    destruct (decide (written (headerWrites options req) res
                      = headerWrites options req)) as [Heq|Hne];
      [|destruct (Hthrow Hne) as ((e & ->) & _); done].
    destruct (Hall Heq) as (_ & Hrun). rewrite Hst.
    destruct (written_all_inv _ _ Heq (headerWrites_nonempty options req))
      as (Hsent & Hvalid).
    rewrite Heq in Hrun. fold (corsHeaders options req res) in Hrun.
    revert Hrun.
    destruct ((reqMethod req =? "OPTIONS")
              && negb (default false (preflightContinue options))) eqn:Hpre.
    { intros [_ ->].
      by destruct ((setStatusCode (default 204%Z (optionsSuccessStatus options))
                     ;; end_) (corsHeaders options req res)).1 as [[]|e]. }
    intros [-> ->] _.
    assert (written (headerWrites options req) (corsHeaders options req res)
            = headerWrites options req) as Heq'.
    { apply written_all; [|done]. unfold corsHeaders.
      by destruct (setHeaders_fields (headerWrites options req) res)
        as (_ & _ & _ & ->). }
    destruct (run_allowed options req (corsHeaders options req res) σ σ (Hm σ))
      as (Hst' & _ & Hall').
    destruct (Hall' Heq') as (_ & Hrun'). rewrite Heq', Hpre in Hrun'.
    destruct Hrun' as [-> ->]. rewrite Hst'.
    split; [done|]. split; [|done]. apply setHeaders_twice.
  - destruct (run_denied options req res σ σ (Hm σ)) as (Hout & Hres & Hst).
    rewrite Hout, Hres, Hst. intros _.
    destruct (run_denied options req res σ σ (Hm σ)) as (-> & -> & ->). done.
  - rewrite (run_failed options req res σ σ e) by (right; apply Hm). done.
  - rewrite (run_pending options req res σ σ (Hm σ)). done.
  - rewrite (run_failed options req res σ σ e) by (left; apply Hm). done.
Qed.

Lemma second_pass_changes_nothing_witness :
  let options := mkOptions (Some (OArray [EString "https://a.test"; ERegExp bTest]))
                   None None (Some ["X-Total"]) (Some true) (Some 600%Z)
                   None None None in
  let req := request (Some "GET") "https://x.b.test" in
  let first := crosscors options req fresh ∅ in
  let second := crosscors options req (response first) (store first) in
  outcome second = Fulfilled false /\
  response second = response first /\
  store second = store first.
Proof.
  apply (second_pass_changes_nothing
           (mkOptions (Some (OArray [EString "https://a.test"; ERegExp bTest]))
              None None (Some ["X-Total"]) (Some true) (Some 600%Z) None None None)
           (request (Some "GET") "https://x.b.test") fresh ∅).
  - reflexivity.
  - reflexivity.
Defined.

(** ** The order of a list *)

(** X18. For a list policy only the set of its elements counts: two lists
    with the same elements, in any order and with any repetitions, give the
    same decision for a request origin (their patterns with [g] or [y]
    taken pairwise distinct). *)
Theorem list_order_is_irrelevant l1 l2 o req σ :
  o <> "" -> NoDup (statefulIds l1) -> NoDup (statefulIds l2) ->
  (forall x, x ∈ l1 <-> x ∈ l2) ->
  (matchOrigin (Some (OArray l1)) (Some o) req σ).1
  = (matchOrigin (Some (OArray l2)) (Some o) req σ).1.
Proof.
  intros Hne Hnd1 Hnd2 Hsame. apply String.eqb_neq in Hne.
  assert (forall l, (matchOrigin (Some (OArray l)) (Some o) req σ).1
                    = Normal (Fulfilled (some o l σ).1)) as Hm.
  { intros l. unfold matchOrigin. simpl. rewrite Hne. simpl.
    by destruct (some o l σ). }
  rewrite !Hm. do 2 f_equal.
  pose proof (some_spec o l1 σ Hnd1) as H1.
  pose proof (some_spec o l2 σ Hnd2) as H2.
  assert ((some o l1 σ).1 = true <-> (some o l2 σ).1 = true) as Hiff.
  { rewrite H1, H2. split; intros (x & Hx & Hacc); exists x;
      (split; [by apply Hsame|done]). }
  destruct (some o l1 σ).1, (some o l2 σ).1; try done.
  - symmetry. by apply Hiff.
  - by apply Hiff.
Qed.

Lemma list_order_is_irrelevant_witness :
  (matchOrigin (Some (OArray [EString "https://a.test"; ERegExp aGlobal; ERegExp bTest]))
     (Some "https://x.b.test") (request (Some "GET") "https://x.b.test") ∅).1
  = (matchOrigin (Some (OArray [ERegExp bTest; ERegExp aGlobal; EString "https://a.test";
                                ERegExp bTest]))
       (Some "https://x.b.test") (request (Some "GET") "https://x.b.test") ∅).1.
Proof.
  apply (list_order_is_irrelevant
           [EString "https://a.test"; ERegExp aGlobal; ERegExp bTest]
           [ERegExp bTest; ERegExp aGlobal; EString "https://a.test"; ERegExp bTest]
           "https://x.b.test" (request (Some "GET") "https://x.b.test") ∅).
  - discriminate.
  - simpl. apply NoDup_singleton.
  - simpl. apply NoDup_singleton.
  - intros x. rewrite !elem_of_cons, !elem_of_nil. tauto.
Defined.
